(** * file-serving-node: a shallow embedding of [server.js]

    The server is a single Node.js file.  Its pure helpers ([safeJoin],
    [splitBuffer], [parseMultipart]) are embedded as functions, its request
    handlers as functions on an explicit state (the file system, the
    responses sent so far, the registered body handlers).  The pieces of
    the JavaScript run time the server calls ([String.prototype.split],
    [decodeURIComponent], [path.join], [Buffer.indexOf], the two regular
    expressions, ...) are embedded next to it, following ECMA-262 and the
    POSIX flavour of Node's [path] module ([path.sep] is ["/"]). *)

From Stdlib Require Import String Ascii ZArith NArith DecimalString Lia.
From stdpp Require Import base option list gmap.

Local Open Scope N_scope.

(** ** JavaScript values used by the server *)

(** A JavaScript string is a sequence of UTF-16 code units. *)
Definition jsstring := list N.

(** A [Buffer] is a sequence of octets, each below 256. *)
Definition Buffer := list N.

(** The code units of an ASCII literal of the source. *)
Definition js (s : string) : jsstring :=
  List.map N_of_ascii (list_ascii_of_string s).

(** An abrupt or normal completion of a call: [Throw] carries the name or
    the code of the error the call raises. *)
Inductive completion (A : Type) : Type :=
| Normal (a : A)
| Throw (e : jsstring).
Arguments Normal {A} a.
Arguments Throw {A} e.

#[global] Instance completion_ret : MRet completion := fun A a => Normal a.

#[global] Instance completion_bind : MBind completion := fun A B f c =>
  match c with
  | Normal a => f a
  | Throw e => Throw e
  end.

#[global] Instance completion_fmap : FMap completion := fun A B f c =>
  match c with
  | Normal a => Normal (f a)
  | Throw e => Throw e
  end.

Definition str_eqb (a b : jsstring) : bool := bool_decide (a = b).

Module Str.

(** [s.startsWith(p)] *)
Fixpoint startsWith (s p : jsstring) {struct p} : bool :=
  match p, s with
  | [], _ => true
  | _ :: _, [] => false
  | c :: p', d :: s' => (c =? d) && startsWith s' p'
  end.

(** [s.includes(p)]: [p] occurs at some index of [s]. *)
Fixpoint includes (s p : jsstring) : bool :=
  startsWith s p ||
  match s with
  | [] => false
  | _ :: s' => includes s' p
  end.

(** [s.split(c)] for a separator of one code unit: never empty. *)
Fixpoint split (c : N) (s : jsstring) : list jsstring :=
  match s with
  | [] => [[]]
  | d :: s' =>
      if d =? c then [] :: split c s'
      else match split c s' with
           | seg :: segs => (d :: seg) :: segs
           | [] => [[d]]
           end
  end.

(** [a[0]] of a non-empty array of strings. *)
Definition first (a : list jsstring) : jsstring := List.hd [] a.

(** [segs.join(sep)] *)
Fixpoint join (sep : jsstring) (segs : list jsstring) : jsstring :=
  match segs with
  | [] => []
  | [seg] => seg
  | seg :: segs' => seg ++ sep ++ join sep segs'
  end.

(** [s.replace(p, r)] for a string pattern: only the first occurrence
    of [p] is replaced. *)
Fixpoint replace (s p r : jsstring) : jsstring :=
  if startsWith s p then r ++ drop (length p) s
  else match s with
       | [] => []
       | c :: s' => c :: replace s' p r
       end.

(** [s.replace(/^\/+/, '')]: the leading run of slashes is removed. *)
Fixpoint stripLeadingSlashes (s : jsstring) : jsstring :=
  match s with
  | 47 :: s' => stripLeadingSlashes s'
  | _ => s
  end.

(** ASCII case mapping.  [toLowerCase] of the source is applied to a file
    extension that is then looked up in a set of ASCII strings; a string
    with a code unit outside ASCII never lower-cases into that set (the
    only such unit with an ASCII lower case is the Kelvin sign, and the
    set has no k), so the ASCII mapping decides the same membership. *)
Definition lowerUnit (c : N) : N :=
  if (65 <=? c) && (c <=? 90) then c + 32 else c.

Definition upperUnit (c : N) : N :=
  if (97 <=? c) && (c <=? 122) then c - 32 else c.

Definition toLowerCase (s : jsstring) : jsstring := List.map lowerUnit s.

(** Decimal digits of a non-negative integer, as in a template literal. *)
Definition ofNumber (n : N) : jsstring :=
  js (NilEmpty.string_of_uint (N.to_uint n)).

End Str.

Definition URIError : jsstring := js "URIError".

(** The code of the [TypeError] Node's [fs] functions throw on a path that
    holds a null character, and of the [Error] [res.writeHead] throws once
    the headers of the response have been sent. *)
Definition ERR_INVALID_ARG_VALUE : jsstring := js "ERR_INVALID_ARG_VALUE".
Definition ERR_HTTP_HEADERS_SENT : jsstring := js "ERR_HTTP_HEADERS_SENT".

(** ** UTF-8 and UTF-16 *)
Module Utf.

(** The UTF-16 code units of a code point. *)
Definition utf16 (cp : N) : jsstring :=
  if cp <? 65536 then [cp]
  else [55296 + (cp - 65536) / 1024; 56320 + (cp - 65536) mod 1024].

(** The UTF-8 octets of a code point. *)
Definition utf8 (cp : N) : Buffer :=
  if cp <? 128 then [cp]
  else if cp <? 2048 then [192 + cp / 64; 128 + cp mod 64]
  else if cp <? 65536 then
    [224 + cp / 4096; 128 + (cp / 64) mod 64; 128 + cp mod 64]
  else
    [240 + cp / 262144; 128 + (cp / 4096) mod 64;
     128 + (cp / 64) mod 64; 128 + cp mod 64].

Definition isHigh (c : N) : bool := (55296 <=? c) && (c <=? 56319).
Definition isLow (c : N) : bool := (56320 <=? c) && (c <=? 57343).
Definition pair (hi lo : N) : N := (hi - 55296) * 1024 + (lo - 56320) + 65536.

(** A continuation octet in its default range. *)
Definition trail (b : N) : bool := (128 <=? b) && (b <=? 191).

(** The well-formed two, three and four octet sequences of the Unicode
    standard (no overlong form, no surrogate, nothing above U+10FFFF). *)
Definition seq2 (b1 b2 : N) : option N :=
  if (194 <=? b1) && (b1 <=? 223) && trail b2
  then Some ((b1 - 192) * 64 + (b2 - 128)) else None.

Definition seq3 (b1 b2 b3 : N) : option N :=
  let lo := if b1 =? 224 then 160 else 128 in
  let hi := if b1 =? 237 then 159 else 191 in
  if (224 <=? b1) && (b1 <=? 239) && (lo <=? b2) && (b2 <=? hi) && trail b3
  then Some ((b1 - 224) * 4096 + (b2 - 128) * 64 + (b3 - 128)) else None.

Definition seq4 (b1 b2 b3 b4 : N) : option N :=
  let lo := if b1 =? 240 then 144 else 128 in
  let hi := if b1 =? 244 then 143 else 191 in
  if (240 <=? b1) && (b1 <=? 244) && (lo <=? b2) && (b2 <=? hi)
     && trail b3 && trail b4
  then Some ((b1 - 240) * 262144 + (b2 - 128) * 4096
             + (b3 - 128) * 64 + (b4 - 128))
  else None.

(** [Buffer.from(s)] (the default encoding is UTF-8): a surrogate pair is
    one code point, a lone surrogate becomes U+FFFD. *)
Fixpoint encode (s : jsstring) : Buffer :=
  match s with
  | [] => []
  | c :: t =>
      if isHigh c then
        match t with
        | d :: t' =>
            if isLow d then utf8 (pair c d) ++ encode t'
            else utf8 65533 ++ encode t
        | [] => utf8 65533
        end
      else if isLow c then utf8 65533 ++ encode t
      else utf8 c ++ encode t
  end.

(** The state of the decoder between two octets: nothing pending, or a
    sequence begun, with the code point so far, the number of octets
    still needed and the range allowed for the next one. *)
Inductive pending :=
| Idle
| Need (cp : N) (needed : nat) (lo hi : N).

(** An octet read with nothing pending. *)
Definition lead (b : N) : jsstring * pending :=
  if b <? 128 then ([b], Idle)
  else if (194 <=? b) && (b <=? 223) then ([], Need (b - 192) 1 128 191)
  else if (224 <=? b) && (b <=? 239) then
    ([], Need (b - 224) 2 (if b =? 224 then 160 else 128)
                          (if b =? 237 then 159 else 191))
  else if (240 <=? b) && (b <=? 244) then
    ([], Need (b - 240) 3 (if b =? 240 then 144 else 128)
                          (if b =? 244 then 143 else 191))
  else ([65533], Idle).

(** [buf.toString('utf8')]: each maximal ill-formed run of octets is
    replaced by U+FFFD; an octet that cannot continue a sequence is read
    again as the start of the next one. *)
Fixpoint decodeFrom (st : pending) (b : Buffer) : jsstring :=
  match b with
  | [] => match st with Idle => [] | Need _ _ _ _ => [65533] end
  | x :: b' =>
      match st with
      | Idle => let '(out, st') := lead x in out ++ decodeFrom st' b'
      | Need cp needed lo hi =>
          if (lo <=? x) && (x <=? hi) then
            let cp' := cp * 64 + (x - 128) in
            match needed with
            | 1%nat => utf16 cp' ++ decodeFrom Idle b'
            | _ => decodeFrom (Need cp' (Nat.pred needed) 128 191) b'
            end
          else
            let '(out, st') := lead x in
            65533 :: out ++ decodeFrom st' b'
      end
  end.

Definition decode (b : Buffer) : jsstring := decodeFrom Idle b.

End Utf.

(** ** [decodeURIComponent] and [encodeURIComponent] (ECMA-262, 19.2.6) *)
Module Uri.

Definition hexval (c : N) : option N :=
  if (48 <=? c) && (c <=? 57) then Some (c - 48)
  else if (65 <=? c) && (c <=? 70) then Some (c - 55)
  else if (97 <=? c) && (c <=? 102) then Some (c - 87)
  else None.

(** The octet written by two hexadecimal digits. *)
Definition hexOctet (h l : N) : option N :=
  match hexval h, hexval l with
  | Some a, Some b => Some (16 * a + b)
  | _, _ => None
  end.

(** An escape [%hl] expected at code unit [p]. *)
Definition escaped (p h l : N) : option N :=
  if p =? 37 then hexOctet h l else None.

(** The rest of the decoded string, after the units of one character. *)
Definition emit (units : option jsstring) (rest : completion jsstring)
  : completion jsstring :=
  match units with
  | Some u => r ← rest; mret (u ++ r)
  | None => Throw URIError
  end.

(** [Decode(string, "")]: a code unit other than [%] is copied; [%hl]
    with an octet below 128 is that code unit; an octet with [n] leading
    one bits opens a sequence of [n] escapes that must be well-formed
    UTF-8, and anything else throws a [URIError]. *)
Fixpoint decodeURIComponent (s : jsstring) : completion jsstring :=
  match s with
  | [] => Normal []
  | c :: t =>
      if negb (c =? 37) then emit (Some [c]) (decodeURIComponent t)
      else
        match t with
        | h1 :: l1 :: t1 =>
            match hexOctet h1 l1 with
            | None => Throw URIError
            | Some b1 =>
                if b1 <? 128 then emit (Some [b1]) (decodeURIComponent t1)
                else if b1 <? 192 then Throw URIError
                else if b1 <? 224 then
                  match t1 with
                  | p2 :: h2 :: l2 :: t2 =>
                      emit (b2 ← escaped p2 h2 l2;
                            Utf.utf16 <$> Utf.seq2 b1 b2)
                           (decodeURIComponent t2)
                  | _ => Throw URIError
                  end
                else if b1 <? 240 then
                  match t1 with
                  | p2 :: h2 :: l2 :: p3 :: h3 :: l3 :: t3 =>
                      emit (b2 ← escaped p2 h2 l2;
                            b3 ← escaped p3 h3 l3;
                            Utf.utf16 <$> Utf.seq3 b1 b2 b3)
                           (decodeURIComponent t3)
                  | _ => Throw URIError
                  end
                else if b1 <? 248 then
                  match t1 with
                  | p2 :: h2 :: l2 :: p3 :: h3 :: l3 :: p4 :: h4 :: l4 :: t4 =>
                      emit (b2 ← escaped p2 h2 l2;
                            b3 ← escaped p3 h3 l3;
                            b4 ← escaped p4 h4 l4;
                            Utf.utf16 <$> Utf.seq4 b1 b2 b3 b4)
                           (decodeURIComponent t4)
                  | _ => Throw URIError
                  end
                else Throw URIError
            end
        | _ => Throw URIError
        end
  end.

(** The code units [encodeURIComponent] leaves as they are: letters,
    digits and [- _ . ! ~ * ' ( )]. *)
Definition unreserved (c : N) : bool :=
  ((48 <=? c) && (c <=? 57)) || ((65 <=? c) && (c <=? 90))
  || ((97 <=? c) && (c <=? 122))
  || bool_decide (c ∈ js "-_.!~*'()").

Definition hexDigit (d : N) : N := if d <? 10 then 48 + d else 55 + d.

Definition percent (octets : Buffer) : jsstring :=
  List.concat (List.map (fun b => [37; hexDigit (b / 16); hexDigit (b mod 16)]) octets).

(** [Encode(string, unreserved)]: every other code point is written as
    the escapes of its UTF-8 octets; a lone surrogate throws. *)
Fixpoint encodeURIComponent (s : jsstring) : completion jsstring :=
  match s with
  | [] => Normal []
  | c :: t =>
      if unreserved c then r ← encodeURIComponent t; mret (c :: r)
      else if Utf.isLow c then Throw URIError
      else if Utf.isHigh c then
        match t with
        | d :: t' =>
            if Utf.isLow d then
              r ← encodeURIComponent t';
              mret (percent (Utf.utf8 (Utf.pair c d)) ++ r)
            else Throw URIError
        | [] => Throw URIError
        end
      else r ← encodeURIComponent t; mret (percent (Utf.utf8 c) ++ r)
  end.

End Uri.

(** ** Node's [path] module, POSIX flavour *)
Module Path.

Definition sep : jsstring := [47].

(** One segment of the path against the segments kept so far, the most
    recent first.  An empty segment and [.] are dropped; [..] removes the
    last kept segment unless there is none or it is [..] itself, in which
    case it is kept when the path is relative; any other segment is
    kept. *)
Definition normalizeStep (allowAboveRoot : bool) (res : list jsstring)
    (seg : jsstring) : list jsstring :=
  if str_eqb seg [] || str_eqb seg [46] then res
  else if str_eqb seg [46; 46] then
    match res with
    | top :: res' =>
        if str_eqb top [46; 46]
        then (if allowAboveRoot then seg :: res else res)
        else res'
    | [] => if allowAboveRoot then [seg] else []
    end
  else seg :: res.

Definition normalizeString (path : jsstring) (allowAboveRoot : bool) : jsstring :=
  Str.join sep
    (rev (fold_left (normalizeStep allowAboveRoot) (Str.split 47 path) [])).

(** [path.normalize(p)] *)
Definition normalize (path : jsstring) : jsstring :=
  match path with
  | [] => [46]
  | c :: _ =>
      let isAbsolute := c =? 47 in
      let trailingSeparator := List.last path 0 =? 47 in
      match normalizeString path (negb isAbsolute) with
      | [] =>
          if isAbsolute then [47]
          else if trailingSeparator then [46; 47] else [46]
      | p =>
          let p' := if trailingSeparator then p ++ [47] else p in
          if isAbsolute then 47 :: p' else p'
      end
  end.

(** [path.join(...args)]: the non-empty arguments joined by [/], then
    normalised; [.] when there is none. *)
Definition join (args : list jsstring) : jsstring :=
  match List.filter (fun a => negb (str_eqb a [])) args with
  | [] => [46]
  | parts => normalize (Str.join sep parts)
  end.

Definition stripTrailingSlashes (p : jsstring) : jsstring :=
  rev (Str.stripLeadingSlashes (rev p)).

(** [path.basename(p)]: the last component, trailing slashes aside. *)
Definition basename (p : jsstring) : jsstring :=
  List.last (Str.split 47 (stripTrailingSlashes p)) [].

(** [path.extname(p)]: the last component from its last dot on; empty
    when it has no dot, when that dot is its first code unit, or when the
    component is [..]. *)
Definition extname (p : jsstring) : jsstring :=
  let name := basename p in
  let pieces := Str.split 46 name in
  let stem := Str.join [46] (removelast pieces) in
  match pieces with
  | [] | [_] => []
  | _ =>
      if str_eqb stem [] || str_eqb name [46; 46] then []
      else 46 :: List.last pieces []
  end.

End Path.

(** ** [Buffer] operations *)
Module Buf.

Definition len (b : Buffer) : Z := Z.of_nat (length b).

Fixpoint startsWith (b v : Buffer) {struct v} : bool :=
  match v, b with
  | [], _ => true
  | _ :: _, [] => false
  | x :: v', y :: b' => (x =? y) && startsWith b' v'
  end.

(** The first index at which [v] occurs in [b]. *)
Fixpoint find (b v : Buffer) : option nat :=
  if startsWith b v then Some 0%nat
  else match b with
       | [] => None
       | _ :: b' => S <$> find b' v
       end.

(** [b.indexOf(v, byteOffset)] for an offset between 0 and the length of
    [b], which is how the server calls it: the first index at or after
    the offset at which [v] occurs, or -1. *)
Definition indexOf (b v : Buffer) (byteOffset : Z) : Z :=
  match find (drop (Z.to_nat byteOffset) b) v with
  | Some i => (byteOffset + Z.of_nat i)%Z
  | None => (-1)%Z
  end.

(** An index argument of [slice]: a negative one counts from the end,
    and the result is clamped to the buffer. *)
Definition clamp (b : Buffer) (i : Z) : Z :=
  if (i <? 0)%Z then Z.max 0 (len b + i) else Z.min i (len b).

(** [b.slice(start, end)] *)
Definition slice (b : Buffer) (start end_ : Z) : Buffer :=
  let s := clamp b start in
  let e := clamp b end_ in
  take (Z.to_nat (e - s)) (drop (Z.to_nat s) b).

(** [b.slice(start)] *)
Definition sliceFrom (b : Buffer) (start : Z) : Buffer :=
  slice b start (len b).

(** [Buffer.concat(list)] *)
Definition concat (l : list Buffer) : Buffer := List.concat l.

End Buf.

(** ** Regular expressions (ECMA-262, 22.2.2), as far as the server uses them

    A backtracking matcher in continuation-passing style: [run r s c k]
    matches [r] at the start of [s] with the captures [c] and hands what is
    left of the input, and the captures, to [k]; a repetition is greedy
    and gives units back one at a time until [k] accepts.  Quantifiers
    apply to single code units, which is all the two expressions of the
    server need. *)
Module Regex.

Inductive regex :=
| Eps
| Unit (p : N -> bool)
| Seq (r1 r2 : regex)
| Star (p : N -> bool)
| Opt (r : regex)
| Group (i : nat) (r : regex)
| End.

Definition Plus (p : N -> bool) : regex := Seq (Unit p) (Star p).

(** [.] without the [s] flag: any code unit but a line terminator. *)
Definition dot (c : N) : bool :=
  negb ((c =? 10) || (c =? 13) || (c =? 8232) || (c =? 8233)).

(** A literal code unit, and a literal under the [i] flag.  For an ASCII
    pattern unit the canonical form of the input unit is its ASCII upper
    case: a unit above 127 is never folded onto one below. *)
Definition exactly (c x : N) : bool := x =? c.
Definition anycase (c x : N) : bool := Str.upperUnit x =? Str.upperUnit c.

Definition Lit (s : jsstring) : regex :=
  List.fold_right (fun c r => Seq (Unit (exactly c)) r) Eps s.
Definition LitI (s : jsstring) : regex :=
  List.fold_right (fun c r => Seq (Unit (anycase c)) r) Eps s.

Abbreviation captures := (gmap nat jsstring).

Fixpoint star (p : N -> bool) (s : jsstring)
    (k : jsstring -> option captures) : option captures :=
  match s with
  | x :: s' =>
      if p x then
        match star p s' k with
        | Some c => Some c
        | None => k s
        end
      else k s
  | [] => k []
  end.

Fixpoint run (r : regex) (s : jsstring) (c : captures)
    (k : jsstring -> captures -> option captures) : option captures :=
  match r with
  | Eps => k s c
  | Unit p =>
      match s with
      | x :: s' => if p x then k s' c else None
      | [] => None
      end
  | Seq r1 r2 => run r1 s c (fun s' c' => run r2 s' c' k)
  | Star p => star p s (fun s' => k s' c)
  | Opt r' =>
      match run r' s c k with
      | Some c' => Some c'
      | None => k s c
      end
  | Group i r' =>
      run r' s c
        (fun s' c' => k s' (<[i := take (length s - length s') s]> c'))
  | End =>
      match s with
      | [] => k s c
      | _ :: _ => None
      end
  end.

(** [s.match(r)] without the [g] flag: the match at the least index at
    which there is one; the result holds the captured groups. *)
Fixpoint exec (r : regex) (s : jsstring) : option captures :=
  match run r s ∅ (fun _ c => Some c) with
  | Some c => Some c
  | None =>
      match s with
      | [] => None
      | _ :: s' => exec r s'
      end
  end.

End Regex.

(** ** The server *)

Record request := {
  method : jsstring;
  url : jsstring;
  headers : gmap jsstring jsstring
}.

(** What [res.end] is given: a string or a [Buffer]. *)
Inductive payload :=
| Text (s : jsstring)
| Bytes (b : Buffer).

(** A response written by [res.writeHead] and [res.end]. *)
Record response := {
  statusCode : Z;
  contentType : jsstring;
  body : payload
}.

(** The files the server reads and writes, by path: a readable file, or an
    entry whose reading fails with an error code other than a missing
    file. *)
Inductive entry :=
| File (content : Buffer)
| Unreadable (code : jsstring).

Abbreviation filesystem := (gmap jsstring entry).

(** What the module gets from its surroundings: its own directory, two
    environment variables, the table of the [mime-types] package, and what
    the operating system makes of a write: the error code the write fails
    with, or the files as they are read after it. *)
Record environment := {
  dirname : jsstring;
  env_RENDER : option jsstring;
  env_UPLOAD_DIR : option jsstring;
  mime_lookup : jsstring -> option jsstring;
  written : filesystem -> jsstring -> Buffer -> jsstring + filesystem
}.

(** A string or [undefined] in a condition. *)
Definition truthy (v : option jsstring) : bool :=
  match v with
  | Some (_ :: _) => true
  | _ => false
  end.

(** [a || b] on strings *)
Definition orElse (v : option jsstring) (d : jsstring) : jsstring :=
  match v with
  | Some (c :: s) => c :: s
  | _ => d
  end.

Definition CRLF : jsstring := [13; 10].
Definition quote : jsstring := [34].

(** [/boundary=(.+)$/] *)
Definition boundaryRegex : Regex.regex :=
  Regex.Seq (Regex.Lit (js "boundary="))
    (Regex.Seq (Regex.Group 1 (Regex.Plus Regex.dot)) Regex.End).

(** The class of every code unit but the double quote. *)
Definition notQuote (c : N) : bool := negb (c =? 34).

(** [/content-disposition:.*name=Q([^Q]+)Q(?:; filename=Q([^Q]+)Q)?/i],
    writing [Q] for the double quote. *)
Definition dispositionRegex : Regex.regex :=
  Regex.Seq (Regex.LitI (js "content-disposition:"))
    (Regex.Seq (Regex.Star Regex.dot)
      (Regex.Seq (Regex.LitI (js "name=" ++ quote))
        (Regex.Seq (Regex.Group 1 (Regex.Plus notQuote))
          (Regex.Seq (Regex.LitI quote)
            (Regex.Opt
              (Regex.Seq (Regex.LitI (js "; filename=" ++ quote))
                (Regex.Seq (Regex.Group 2 (Regex.Plus notQuote))
                  (Regex.LitI quote)))))))).

Definition MAX_UPLOAD_BYTES : Z := 10 * 1024 * 1024.

Definition ALLOWED_EXTENSIONS : gset jsstring :=
  {[ js ".png"; js ".jpg"; js ".jpeg"; js ".gif"; js ".pdf"; js ".txt" ]}.

(** [send(res, statusCode, contentType, body)] writes one response. *)
Definition send (statusCode : Z) (contentType : jsstring) (body : payload)
  : response :=
  {| statusCode := statusCode; contentType := contentType; body := body |}.

(** [safeJoin(baseDir, urlPath)]: [None] is the [null] of the source. *)
Definition safeJoin (baseDir urlPath : jsstring) : completion (option jsstring) :=
  decoded ← Uri.decodeURIComponent (Str.first (Str.split 63 urlPath));
  let cleanPath := Str.first (Str.split 35 decoded) in
  let relative := Str.stripLeadingSlashes cleanPath in
  let absPath := Path.join [baseDir; relative] in
  let safeRoot := baseDir ++ Path.sep in
  if negb (Str.startsWith absPath safeRoot) then mret None
  else mret (Some absPath).

(** [fs.readFile(filePath, callback)].  The call validates the path before
    it opens the file and throws at once on a path that holds a null
    character; otherwise it returns, and the callback is called with the
    error code or with the content. *)
Definition readFile (fs : filesystem) (filePath : jsstring)
  : completion (jsstring + Buffer) :=
  if bool_decide (0 ∈ filePath) then Throw ERR_INVALID_ARG_VALUE
  else
    mret (match fs !! filePath with
          | None => inl (js "ENOENT")
          | Some (Unreadable code) => inl code
          | Some (File content) => inr content
          end).

(** [fs.writeFileSync(targetPath, data)]: it throws on a path that holds a
    null character and where the write fails (a directory at the path, a
    missing parent, ...); what the files are after it is the operating
    system's affair. *)
Definition writeFileSync (env : environment) (fs : filesystem)
    (targetPath : jsstring) (data : Buffer) : completion filesystem :=
  if bool_decide (0 ∈ targetPath) then Throw ERR_INVALID_ARG_VALUE
  else
    match written env fs targetPath data with
    | inl code => Throw code
    | inr fs' => mret fs'
    end.

(** The loop of [splitBuffer], with a bound on its iterations: [None] when
    the bound is reached before the loop ends. *)
Fixpoint splitLoop (fuel : nat) (buffer separator : Buffer)
    (parts : list Buffer) (start index : Z) : option (list Buffer) :=
  if (index =? -1)%Z then Some (parts ++ [Buf.sliceFrom buffer start])
  else
    match fuel with
    | O => None
    | S fuel' =>
        let parts := parts ++ [Buf.slice buffer start index] in
        let start := (index + Buf.len separator)%Z in
        let index := Buf.indexOf buffer separator start in
        splitLoop fuel' buffer separator parts start index
    end.

(** [splitBuffer(buffer, separator)].  Every iteration moves [start] forward
    by the length of the separator, so with a non-empty separator the loop
    ends within [length buffer] iterations; with the empty separator it
    never ends, which is [None] here. *)
Definition splitBuffer (buffer separator : Buffer) : option (list Buffer) :=
  splitLoop (S (length buffer)) buffer separator [] 0
    (Buf.indexOf buffer separator 0).

(** [parseMultipart(buffer, boundary)].  The separator starts with two
    dashes, so [splitBuffer] returns. *)
Definition parseMultipart (buffer : Buffer) (boundary : jsstring) : list Buffer :=
  let boundaryBuffer := Utf.encode (js "--" ++ boundary) in
  let chunks := default [] (splitBuffer buffer boundaryBuffer) in
  List.filter (fun part => (0 <? Buf.len part)%Z)
    (List.map (fun part => Buf.slice part 2 (Buf.len part - 2)) chunks).

(** How [handleUpload] leaves the request: answered at once, or with its
    [data], [end] and [error] handlers registered for the boundary found. *)
Inductive started :=
| Answered (r : response)
| Listening (boundary : jsstring).

(** [handleUpload(req, res)] up to the registration of the handlers. *)
Definition handleUpload (req : request) : started :=
  let contentType := orElse (headers req !! js "content-type") [] in
  if negb (Str.includes contentType (js "multipart/form-data")) then
    Answered (send 400 (js "text/plain") (Text (js "Invalid form encoding")))
  else
    match Regex.exec boundaryRegex contentType with
    | None => Answered (send 400 (js "text/plain") (Text (js "Missing boundary")))
    | Some boundaryMatch => Listening (default [] (boundaryMatch !! 1%nat))
    end.

(** The variables the three handlers close over, with the request stream
    ([destroyed]), the responses written to [res] and the file system.
    [sent] holds what the handlers write with [send]; what reaches the
    client over a connection that [req.destroy()] has closed is the
    transport's affair.  An exception that leaves a handler is caught
    nowhere in the source. *)
Record upload := {
  boundary : jsstring;
  totalBytes : Z;
  chunks : list Buffer;
  destroyed : bool;
  sent : list response;
  disk : filesystem
}.

Definition listen (boundary : jsstring) (fs : filesystem) : upload :=
  {| boundary := boundary; totalBytes := 0; chunks := [];
     destroyed := false; sent := []; disk := fs |}.

(** [send(res, ...)] in a handler of the upload: [res.writeHead] throws
    when a response has been written to [res] already. *)
Definition respond (u : upload) (r : response) : completion upload :=
  match sent u with
  | [] =>
      mret {| boundary := boundary u; totalBytes := totalBytes u; chunks := chunks u;
              destroyed := destroyed u; sent := [r]; disk := disk u |}
  | _ :: _ => Throw ERR_HTTP_HEADERS_SENT
  end.

(** [req.on('data', chunk => ...)] *)
Definition onData (u : upload) (chunk : Buffer) : completion upload :=
  let totalBytes' := (totalBytes u + Buf.len chunk)%Z in
  if (totalBytes' >? MAX_UPLOAD_BYTES)%Z then
    respond {| boundary := boundary u; totalBytes := totalBytes'; chunks := chunks u;
               destroyed := true; sent := sent u; disk := disk u |}
            (send 413 (js "text/plain") (Text (js "File too large")))
  else
    mret {| boundary := boundary u; totalBytes := totalBytes';
            chunks := chunks u ++ [chunk];
            destroyed := destroyed u; sent := sent u; disk := disk u |}.

(** [req.on('error', ...)] *)
Definition onError (u : upload) : completion upload :=
  respond u (send 500 (js "text/plain") (Text (js "Upload failed"))).

(** How the [for] loop over the parts is left: by its [return], by its
    [break] after a write, or at the end of the parts. *)
Inductive looped :=
| Returned (r : response)
| Saved (savedFile : jsstring) (fs : filesystem)
| Exhausted.

Section Server.

Variable env : environment.

Definition PUBLIC_DIR : jsstring := Path.join [dirname env; js "public"].

Definition DEFAULT_UPLOAD_DIR : jsstring :=
  if truthy (env_RENDER env) then Path.join [js "/tmp"; js "uploads"]
  else Path.join [dirname env; js "uploads"].

Definition UPLOAD_DIR : jsstring := orElse (env_UPLOAD_DIR env) DEFAULT_UPLOAD_DIR.

(** [serveFile(filePath, res)]: the exception of [fs.readFile], or the
    response its callback writes. *)
Definition serveFile (fs : filesystem) (filePath : jsstring) : completion response :=
  outcome ← readFile fs filePath;
  match outcome with
  | inl code =>
      if str_eqb code (js "ENOENT") then
        mret (send 404 (js "text/html") (Text (js "<h1>404 - File Not Found</h1>")))
      else mret (send 500 (js "text/plain") (Text (js "Server Error: " ++ code)))
  | inr content =>
      let contentType :=
        orElse (mime_lookup env filePath) (js "application/octet-stream") in
      mret (send 200 contentType (Bytes content))
  end.

(** The [for (const part of parts)] loop of the [end] handler; [now] is
    the value of [Date.now()]. *)
Fixpoint forParts (now : N) (fs : filesystem) (parts : list Buffer)
  : completion looped :=
  match parts with
  | [] => mret Exhausted
  | part :: rest =>
      let headerEnd := Buf.indexOf part (Utf.encode (CRLF ++ CRLF)) 0 in
      if (headerEnd =? -1)%Z then forParts now fs rest
      else
        let headerText := Utf.decode (Buf.slice part 0 headerEnd) in
        let data := Buf.sliceFrom part (headerEnd + 4) in
        match Regex.exec dispositionRegex headerText with
        | None => forParts now fs rest
        | Some dispositionMatch =>
            let fieldName := dispositionMatch !! 1%nat in
            let fileNameRaw := dispositionMatch !! 2%nat in
            if negb (bool_decide (fieldName = Some (js "file")))
               || negb (truthy fileNameRaw)
            then forParts now fs rest
            else
              let safeName := Path.basename (default [] fileNameRaw) in
              let ext := Str.toLowerCase (Path.extname safeName) in
              if negb (bool_decide (ext ∈ ALLOWED_EXTENSIONS)) then
                mret (Returned (send 415 (js "text/plain")
                                  (Text (js "File type not allowed"))))
              else
                let finalName := Str.ofNumber now ++ js "-" ++ safeName in
                let targetPath := Path.join [UPLOAD_DIR; finalName] in
                fs' ← writeFileSync env fs targetPath data;
                mret (Saved finalName fs')
        end
  end.

(** [req.on('end', () => ...)] *)
Definition onEnd (now : N) (u : upload) : completion upload :=
  let reply (r : response) (fs : filesystem) : completion upload :=
    respond {| boundary := boundary u; totalBytes := totalBytes u; chunks := chunks u;
               destroyed := destroyed u; sent := sent u; disk := fs |} r in
  let bodyBuffer := Buf.concat (chunks u) in
  let parts := parseMultipart bodyBuffer (boundary u) in
  left ← forParts now (disk u) parts;
  match left with
  | Returned r => reply r (disk u)
  | Exhausted =>
      reply (send 400 (js "text/plain") (Text (js "No file uploaded"))) (disk u)
  | Saved savedFile fs =>
      encoded ← Uri.encodeURIComponent savedFile;
      let link := js "/uploads/" ++ encoded in
      reply (send 200 (js "text/html")
               (Text (js "<h1>Upload complete</h1><p><a href=" ++ quote
                      ++ link ++ quote ++ js ">View file</a></p>")))
            fs
  end.

(** What the request stream emits. *)
Inductive event :=
| Data (chunk : Buffer)
| EndOfBody
| Failure.

(** The handler of one event.  A destroyed stream emits nothing more. *)
Definition handle (now : N) (u : upload) (e : event) : completion upload :=
  if destroyed u then mret u
  else
    match e with
    | Data chunk => onData u chunk
    | EndOfBody => onEnd now u
    | Failure => onError u
    end.

Fixpoint receive (now : N) (u : upload) (events : list event) : completion upload :=
  match events with
  | [] => mret u
  | e :: events' => u' ← handle now u e; receive now u' events'
  end.

(** A body that arrives whole, in the given chunks. *)
Definition stream (body : list Buffer) : list event :=
  List.map Data body ++ [EndOfBody].

(** What the callback of [http.createServer] does with a request: it
    writes a response, or leaves the request to the upload handlers. *)
Inductive reaction :=
| Respond (r : response)
| Upload (s : started).

Definition falsy (v : option jsstring) : bool := negb (truthy v).

(** The callback of [http.createServer]. *)
Definition server (fs : filesystem) (req : request) : completion reaction :=
  if str_eqb (method req) (js "POST") && str_eqb (url req) (js "/upload") then
    mret (Upload (handleUpload req))
  else if negb (str_eqb (method req) (js "GET"))
          && negb (str_eqb (method req) (js "HEAD")) then
    mret (Respond (send 405 (js "text/plain") (Text (js "Method Not Allowed"))))
  else if str_eqb (url req) (js "/") || str_eqb (url req) (js "/index.html") then
    Respond <$> serveFile fs (Path.join [PUBLIC_DIR; js "index.html"])
  else if Str.startsWith (url req) (js "/uploads/") then
    uploadPath ← safeJoin UPLOAD_DIR (Str.replace (url req) (js "/uploads/") []);
    if falsy uploadPath then
      mret (Respond (send 403 (js "text/plain") (Text (js "Forbidden"))))
    else Respond <$> serveFile fs (default [] uploadPath)
  else
    filePath ← safeJoin PUBLIC_DIR (url req);
    if falsy filePath then
      mret (Respond (send 403 (js "text/plain") (Text (js "Forbidden"))))
    else Respond <$> serveFile fs (default [] filePath).

End Server.

(** ** Definitions used to state the properties *)

(** The weight of a list of segments: their lengths, and one separator
    each. *)
Definition weight (segs : list jsstring) : nat :=
  list_sum (List.map (fun seg => S (length seg)) segs).

(** The number of empty segments. *)
Definition empties (segs : list jsstring) : nat :=
  length (List.filter (fun seg => str_eqb seg []) segs).

(** The longest prefix of units satisfying [p], and what follows it. *)
Fixpoint span (p : N -> bool) (s : jsstring) : jsstring :=
  match s with
  | x :: s' => if p x then x :: span p s' else []
  | [] => []
  end.

Fixpoint skip (p : N -> bool) (s : jsstring) : jsstring :=
  match s with
  | x :: s' => if p x then skip p s' else s
  | [] => []
  end.

(** The literal [l] at the start of [s], case aside. *)
Fixpoint prefixI (l s : jsstring) {struct l} : bool :=
  match l, s with
  | [], _ => true
  | _ :: _, [] => false
  | c :: l', x :: s' => Regex.anycase c x && prefixI l' s'
  end.

(** The continuation that ends a match. *)
Definition accept : jsstring -> Regex.captures -> option Regex.captures :=
  fun _ c => Some c.

(** The two halves of the disposition expression that follow its [.*]. *)
Definition filenameRegex : Regex.regex :=
  Regex.Seq (Regex.LitI (js "; filename=" ++ quote))
    (Regex.Seq (Regex.Group 2 (Regex.Plus notQuote)) (Regex.LitI quote)).

Definition nameRegex : Regex.regex :=
  Regex.Seq (Regex.LitI (js "name=" ++ quote))
    (Regex.Seq (Regex.Group 1 (Regex.Plus notQuote))
      (Regex.Seq (Regex.LitI quote) (Regex.Opt filenameRegex))).

(** The number of octets of a body that arrives in chunks. *)
Definition bodyBytes (body : list Buffer) : Z :=
  List.fold_right (fun chunk n => (Buf.len chunk + n)%Z) 0%Z body.

(** The variables of the upload handlers once the chunks of [body] have
    been taken in after those of [u]. *)
Definition buffered (u : upload) (body : list Buffer) : upload :=
  {| boundary := boundary u; totalBytes := (totalBytes u + bodyBytes body)%Z;
     chunks := chunks u ++ body; destroyed := destroyed u;
     sent := sent u; disk := disk u |}.

Definition tooLarge : response :=
  send 413 (js "text/plain") (Text (js "File too large")).

Definition noFile : response :=
  send 400 (js "text/plain") (Text (js "No file uploaded")).

Definition forbidden : response :=
  send 403 (js "text/plain") (Text (js "Forbidden")).

(** The occurrences of [sep] met by a scan of [b] from left to right that
    resumes behind each occurrence it finds; [wait] octets of the last
    occurrence are still to be passed over. *)
Fixpoint scan (sep : Buffer) (wait : nat) (b : Buffer) : nat :=
  match b with
  | [] => 0
  | _ :: b' =>
      match wait with
      | S w => scan sep w b'
      | O =>
          if Buf.startsWith b sep then S (scan sep (length sep - 1) b')
          else scan sep 0 b'
      end
  end.

Definition occurrences (sep b : Buffer) : nat := scan sep 0 b.

(** The fragments put together again, the separator between each two. *)
Fixpoint rejoin (sep : Buffer) (frags : list Buffer) : Buffer :=
  match frags with
  | [] => []
  | [frag] => frag
  | frag :: frags' => frag ++ sep ++ rejoin sep frags'
  end.

(** *** Requests used as examples *)

(** The header block of a file field as browsers and [curl] write it. *)
Definition fileHeaders (name filename mediaType : jsstring) : jsstring :=
  js "Content-Disposition: form-data; name=" ++ quote ++ name ++ quote
  ++ js "; filename=" ++ quote ++ filename ++ quote ++ CRLF
  ++ js "Content-Type: " ++ mediaType.

(** A part: its header block, an empty line, its content. *)
Definition part (headerBlock : jsstring) (content : Buffer) : Buffer :=
  Utf.encode headerBlock ++ Utf.encode (CRLF ++ CRLF) ++ content.

(** A [multipart/form-data] body with the given parts (RFC 7578). *)
Definition formData (bnd : jsstring) (parts : list Buffer) : Buffer :=
  List.concat
    (List.map (fun p => Utf.encode (js "--" ++ bnd ++ CRLF) ++ p ++ Utf.encode CRLF) parts)
  ++ Utf.encode (js "--" ++ bnd ++ js "--" ++ CRLF).

Definition uploadRequest (bnd : jsstring) : request :=
  {| method := js "POST"; url := js "/upload";
     headers := {[ js "content-type" := js "multipart/form-data; boundary=" ++ bnd ]} |}.

Definition exampleEnv : environment :=
  {| dirname := js "/srv/app"; env_RENDER := None; env_UPLOAD_DIR := None;
     mime_lookup := fun _ => None;
     written := fun fs targetPath data => inr (<[targetPath := File data]> fs) |}.

(** The upload of the specification's scenario: one part, field [file],
    file name [report.pdf], boundary [XYZ]. *)
Definition reportPart : Buffer :=
  part (fileHeaders (js "file") (js "report.pdf") (js "application/pdf"))
       (Utf.encode (js "%PDF-1.4...")).

Definition reportBody : Buffer := formData (js "XYZ") [reportPart].

(** An upload of a file whose extension is not allowed. *)
Definition exePart : Buffer :=
  part (fileHeaders (js "file") (js "evil.exe") (js "application/octet-stream"))
       [77; 90; 144; 0].

(** An upload of a part with no empty line, a text field, and two file
    fields. *)
Definition severalParts : list Buffer :=
  [ Utf.encode (js "no header end");
    part (js "Content-Disposition: form-data; name=" ++ quote ++ js "note" ++ quote)
         (Utf.encode (js "hello"));
    part (fileHeaders (js "file") (js "first.txt") (js "text/plain"))
         (Utf.encode (js "one"));
    part (fileHeaders (js "file") (js "second.txt") (js "text/plain"))
         (Utf.encode (js "two")) ].

(** *** Paths and URLs the properties speak of *)

(** A segment [path.normalize] keeps: not empty, without a slash, not [.],
    and in an absolute path not [..] either. *)
Definition keptSegment (absolute : bool) (seg : jsstring) : Prop :=
  seg <> [] /\ (47 ∉ seg) /\ seg <> [46] /\ (absolute = true -> seg <> [46; 46]).

(** A code unit of a URL that is neither an escape nor the start of a query
    or of a fragment. *)
Definition plainUnit (c : N) : bool :=
  negb ((c =? 37) || (c =? 63) || (c =? 35)).

(** A segment of a request path that names a file or a directory as it is
    written. *)
Definition plainSegment (seg : jsstring) : Prop :=
  keptSegment true seg /\ Forall (fun c => plainUnit c = true) seg.

(** *** Multipart bodies the properties speak of *)

(** The fragments [splitBuffer] cuts a buffer into, fragment by fragment:
    what lies before the first separator, then the fragments of what lies
    behind it; [None] when [fuel] separators did not exhaust the buffer. *)
Fixpoint fragmentsOf (fuel : nat) (sep b : Buffer) : option (list Buffer) :=
  match Buf.find b sep with
  | None => Some [b]
  | Some i =>
      match fuel with
      | O => None
      | S fuel' => cons (take i b) <$> fragmentsOf fuel' sep (drop (i + length sep) b)
      end
  end.

(** The delimiter of [parseMultipart]: two dashes and the boundary. *)
Definition delimiter (bnd : jsstring) : Buffer := Utf.encode (js "--" ++ bnd).

(** A body as RFC 2046 frames it: each part between a delimiter line and a
    line break, and the closing delimiter with its two dashes. *)
Fixpoint framedTail (delim : Buffer) (parts : list Buffer) : Buffer :=
  match parts with
  | [] => [45; 45; 13; 10]
  | p :: parts' => [13; 10] ++ p ++ [13; 10] ++ delim ++ framedTail delim parts'
  end.

Definition framed (bnd : jsstring) (parts : list Buffer) : Buffer :=
  delimiter bnd ++ framedTail (delimiter bnd) parts.

(** A part the delimiter cannot be mistaken in: between its two line breaks
    the delimiter neither occurs nor begins. *)
Definition delimited (delim part : Buffer) : Prop :=
  Buf.find ([13; 10] ++ part ++ [13; 10] ++ removelast delim) delim = None.

(** * Properties *)

(** ** Strings *)

Lemma str_eqb_eq (a b : jsstring) : str_eqb a b = true <-> a = b.
Proof. unfold str_eqb. apply bool_decide_eq_true. Qed.

Lemma str_eqb_neq (a b : jsstring) : str_eqb a b = false <-> a <> b.
Proof. unfold str_eqb. apply bool_decide_eq_false. Qed.

Lemma startsWith_app (s p : jsstring) :
  Str.startsWith s p = true <-> exists t, s = p ++ t.
Proof.
  revert s. induction p as [|c p IH]; intros s; simpl.
  - split; [exists s; reflexivity | reflexivity].
  - destruct s as [|d s]; simpl.
    + split; [discriminate | intros [t Ht]; discriminate].
    + rewrite andb_true_iff, N.eqb_eq, IH. split.
      * intros [-> [t ->]]. exists t. reflexivity.
      * intros [t Ht]. injection Ht as -> ->. split; [reflexivity | exists t; reflexivity].
Qed.

Lemma startsWith_length (s p : jsstring) :
  Str.startsWith s p = true -> (length p <= length s)%nat.
Proof.
  intros H. apply startsWith_app in H as [t ->]. rewrite length_app. lia.
Qed.

Lemma split_weight (c : N) (s : jsstring) :
  weight (Str.split c s) = S (length s).
Proof.
  induction s as [|d s IH]; simpl; [reflexivity|].
  destruct (d =? c).
  - unfold weight in *. simpl. rewrite IH. reflexivity.
  - destruct (Str.split c s) as [|seg segs]; unfold weight in *; simpl in *; lia.
Qed.

Lemma split_nonempty (c : N) (s : jsstring) : Str.split c s <> [].
Proof.
  destruct s as [|d s]; simpl; [discriminate|].
  destruct (d =? c); [discriminate|].
  destruct (Str.split c s); discriminate.
Qed.

Lemma join_weight (segs : list jsstring) :
  segs <> [] -> S (length (Str.join Path.sep segs)) = weight segs.
Proof.
  induction segs as [|seg segs IH]; [congruence|]. intros _.
  destruct segs as [|seg' segs].
  - unfold weight. simpl. lia.
  - change (Str.join Path.sep (seg :: seg' :: segs))
      with (seg ++ Path.sep ++ Str.join Path.sep (seg' :: segs)).
    unfold weight in *. rewrite !length_app. simpl in *.
    specialize (IH ltac:(discriminate)). lia.
Qed.

Lemma weight_app (a b : list jsstring) : weight (a ++ b) = (weight a + weight b)%nat.
Proof. unfold weight. rewrite List.map_app, list_sum_app. reflexivity. Qed.

Lemma weight_rev (a : list jsstring) : weight (rev a) = weight a.
Proof.
  induction a as [|x a IH]; [reflexivity|].
  simpl. rewrite weight_app, IH. unfold weight. simpl. lia.
Qed.

(** ** Paths *)

(** A step of the normalisation keeps at most what it is given, and an
    empty segment is dropped. *)
Lemma normalizeStep_weight (allow : bool) (res : list jsstring) (seg : jsstring) :
  (weight (Path.normalizeStep allow res seg) + (if str_eqb seg [] then 1 else 0)
   <= weight res + S (length seg))%nat.
Proof.
  unfold Path.normalizeStep.
  destruct (str_eqb seg []) eqn:E0; simpl; [lia|].
  destruct (str_eqb seg [46]); simpl; [lia|].
  destruct (str_eqb seg [46; 46]).
  - destruct res as [|top res']; [destruct allow; unfold weight; simpl; lia|].
    destruct (str_eqb top [46; 46]); [destruct allow|]; unfold weight; simpl; lia.
  - unfold weight. simpl. lia.
Qed.

Lemma normalize_fold_weight (allow : bool) (segs res : list jsstring) :
  (weight (fold_left (Path.normalizeStep allow) segs res) + empties segs
   <= weight res + weight segs)%nat.
Proof.
  revert res. induction segs as [|seg segs IH]; intros res; simpl.
  - unfold empties, weight. simpl. lia.
  - specialize (IH (Path.normalizeStep allow res seg)).
    pose proof (normalizeStep_weight allow res seg) as Hs.
    unfold empties in *. simpl.
    change (weight (seg :: segs)) with (S (length seg) + weight segs)%nat.
    destruct (str_eqb seg []); simpl in *; lia.
Qed.

Lemma split_trailing (s : jsstring) :
  s <> [] -> List.last s 0 = 47 ->
  exists segs, segs <> [] /\ Str.split 47 s = segs ++ [[]].
Proof.
  induction s as [|d s IH]; [congruence|]. intros _ Hl.
  destruct s as [|e s].
  - simpl in Hl. subst d. exists [[]]. split; [discriminate | reflexivity].
  - destruct (IH ltac:(discriminate) Hl) as (segs & Hne & E).
    change (Str.split 47 (d :: e :: s))
      with (if d =? 47 then [] :: Str.split 47 (e :: s)
            else match Str.split 47 (e :: s) with
                 | seg :: segs => (d :: seg) :: segs
                 | [] => [[d]]
                 end).
    rewrite E. destruct (d =? 47).
    + exists ([] :: segs). split; [discriminate | reflexivity].
    + destruct segs as [|seg segs]; [congruence|].
      exists ((d :: seg) :: segs). split; [discriminate | reflexivity].
Qed.

Lemma empties_app (a b : list jsstring) : empties (a ++ b) = (empties a + empties b)%nat.
Proof. unfold empties. rewrite List.filter_app, length_app. reflexivity. Qed.

(** The leading and the trailing separator of a path are two of its empty
    segments. *)
Lemma split_empties (c : N) (p : jsstring) :
  ((if (c =? 47)%N then 1 else 0) + (if (List.last (c :: p) 0%N =? 47)%N then 1 else 0)
   <= empties (Str.split 47%N (c :: p)))%nat.
Proof.
  destruct (N.eqb_spec c 47) as [->|Hc].
  - change (Str.split 47 (47 :: p)) with ([] :: Str.split 47 p).
    change (empties ([] :: Str.split 47 p)) with (S (empties (Str.split 47 p))).
    destruct p as [|e p]; [unfold empties; simpl; lia|].
    change (List.last (47 :: e :: p) 0) with (List.last (e :: p) 0).
    destruct (N.eqb_spec (List.last (e :: p) 0) 47) as [Hl|Hl]; [|lia].
    destruct (split_trailing (e :: p) ltac:(discriminate) Hl) as (segs & _ & ->).
    rewrite empties_app. unfold empties at 2. simpl. lia.
  - destruct (N.eqb_spec (List.last (c :: p) 0) 47) as [Hl|Hl]; [|lia].
    destruct (split_trailing (c :: p) ltac:(discriminate) Hl) as (segs & _ & ->).
    rewrite empties_app. unfold empties at 2. simpl. lia.
Qed.

(** Normalisation never makes a non-empty path longer. *)
Lemma normalize_length (p : jsstring) :
  p <> [] -> (length (Path.normalize p) <= length p)%nat.
Proof.
  destruct p as [|c p]; [congruence|]. intros _.
  unfold Path.normalize, Path.normalizeString.
  set (segs := Str.split 47 (c :: p)).
  set (kept := rev (fold_left (Path.normalizeStep (negb (c =? 47))) segs [])).
  pose proof (normalize_fold_weight (negb (c =? 47)) segs []) as Hw.
  rewrite <- (weight_rev (fold_left _ _ _)) in Hw. fold kept in Hw.
  pose proof (split_empties c p) as He. fold segs in He.
  pose proof (split_weight 47 (c :: p)) as Hs. fold segs in Hs.
  change (weight []) with 0%nat in Hw.
  destruct (Str.join Path.sep kept) as [|x r] eqn:Ej.
  - destruct (c =? 47) eqn:Ec; [simpl; lia|].
    destruct (List.last (c :: p) 0 =? 47) eqn:El; [|simpl; lia].
    destruct p as [|e p]; [|simpl; lia].
    simpl in El. congruence.
  - assert (kept <> []) as Hk by (intros ->; discriminate).
    pose proof (join_weight kept Hk) as Hj. rewrite Ej in Hj.
    destruct (c =? 47), (List.last (c :: p) 0 =? 47);
      simpl length in *; rewrite ?length_app; simpl length; lia.
Qed.

(** ** [safeJoin] *)

(** Whatever [safeJoin] returns other than [null] passed its prefix test:
    it is the joined path, and it starts with the root and a separator. *)
Lemma safeJoin_contained (baseDir urlPath absPath : jsstring) :
  safeJoin baseDir urlPath = Normal (Some absPath) ->
  exists rest, absPath = baseDir ++ Path.sep ++ rest.
Proof.
  unfold safeJoin.
  destruct (Uri.decodeURIComponent _) as [decoded|e]; simpl; [|discriminate].
  destruct (Str.startsWith _ _) eqn:E; simpl; [|discriminate].
  intros [= <-]. apply startsWith_app in E as [t Ht].
  exists t. rewrite Ht, <- app_assoc. reflexivity.
Qed.

Lemma safeJoin_nonempty (baseDir urlPath absPath : jsstring) :
  safeJoin baseDir urlPath = Normal (Some absPath) -> truthy (Some absPath) = true.
Proof.
  intros H. apply safeJoin_contained in H as [rest ->].
  destruct baseDir; reflexivity.
Qed.

Lemma stripLeadingSlashes_all (s : jsstring) :
  Forall (fun c => c = 47) s -> Str.stripLeadingSlashes s = [].
Proof. induction 1 as [|c s -> _ IH]; [reflexivity | exact IH]. Qed.

(** The root itself never passes the prefix test. *)
Lemma join_root_rejected (baseDir : jsstring) :
  Str.startsWith (Path.join [baseDir; []]) (baseDir ++ Path.sep) = false.
Proof.
  destruct baseDir as [|c b]; [reflexivity|].
  change (Path.join [c :: b; []]) with (Path.normalize (c :: b)).
  destruct (Str.startsWith _ _) eqn:E; [|reflexivity].
  apply startsWith_length in E.
  pose proof (normalize_length (c :: b) ltac:(discriminate)) as Hn.
  rewrite length_app in E. simpl in *. lia.
Qed.

Lemma safeJoin_root_rejected (baseDir urlPath decoded : jsstring) :
  Uri.decodeURIComponent (Str.first (Str.split 63 urlPath)) = Normal decoded ->
  Str.stripLeadingSlashes (Str.first (Str.split 35 decoded)) = [] ->
  safeJoin baseDir urlPath = Normal None.
Proof.
  intros Hd Hs. unfold safeJoin. rewrite Hd. simpl. rewrite Hs.
  rewrite join_root_rejected. reflexivity.
Qed.

(** C1, on a malformed escape: [decodeURIComponent] throws a [URIError]
    on a percent sign that no two hexadecimal digits follow, so for the
    request paths [/%] and [/../%zz?x=1] [safeJoin] returns neither [null]
    nor a path under the root, whatever the root; the exception leaves the
    callback of the server, which writes no response to [GET /%]. *)
Theorem safeJoin_malformed_escape_throws (env : environment) (fs : filesystem)
    (baseDir : jsstring) (hs : gmap jsstring jsstring) :
  safeJoin baseDir (js "/%") = Throw URIError
  /\ safeJoin baseDir (js "/../%zz?x=1") = Throw URIError
  /\ server env fs {| method := js "GET"; url := js "/%"; headers := hs |}
     = Throw URIError.
Proof. repeat split; reflexivity. Qed.

(** C4, as the code has it: when the request path is empty or only slashes
    once its query and fragment are cut off and it is decoded, [safeJoin]
    joins it to the root itself, the root does not start with the root
    followed by a separator, and the result is [null]. *)
Theorem safeJoin_root_exact_is_null (baseDir urlPath decoded : jsstring) :
  Uri.decodeURIComponent (Str.first (Str.split 63 urlPath)) = Normal decoded ->
  Forall (fun c => c = 47) (Str.first (Str.split 35 decoded)) ->
  Path.join [baseDir; Str.stripLeadingSlashes (Str.first (Str.split 35 decoded))]
    = Path.join [baseDir]
  /\ safeJoin baseDir urlPath = Normal None.
Proof.
  intros Hd Hs. apply stripLeadingSlashes_all in Hs. split.
  - rewrite Hs. destruct baseDir; reflexivity.
  - eapply safeJoin_root_rejected; eassumption.
Qed.

Lemma safeJoin_root_exact_is_null_witness :
  safeJoin (js "/srv/app/public") (js "//?x=1#top") = Normal None.
Proof.
  apply (safeJoin_root_exact_is_null (js "/srv/app/public") (js "//?x=1#top") (js "//")).
  - reflexivity.
  - repeat constructor.
Defined.

(** C4 as stated fails: for the root-exact paths the result is the rejected
    value, not a resolved path. *)
Lemma safeJoin_root_exact_counterexample :
  ~ (exists resolved, safeJoin (js "/srv/app/public") (js "/") = Normal (Some resolved))
  /\ ~ (exists resolved, safeJoin (js "/srv/app/public") [] = Normal (Some resolved)).
Proof. split; intros [resolved H]; vm_compute in H; discriminate. Qed.

(** ** The router *)

(** C10: a GET of [/] followed by a query string is not the index: the URL
    is neither of the two index strings nor under [/uploads/], [safeJoin]
    is called with the public root, the path it joins is the root itself,
    and the response is 403. *)
Theorem query_on_root_is_forbidden (env : environment) (fs : filesystem)
    (query : jsstring) (hs : gmap jsstring jsstring) :
  let req := {| method := js "GET"; url := js "/?" ++ query; headers := hs |} in
  url req <> js "/" /\ url req <> js "/index.html"
  /\ safeJoin (PUBLIC_DIR env) (url req) = Normal None
  /\ server env fs req
     = Normal (Respond (send 403 (js "text/plain") (Text (js "Forbidden")))).
Proof.
  intros req.
  assert (safeJoin (PUBLIC_DIR env) (url req) = Normal None) as Hj.
  { apply (safeJoin_root_rejected _ _ [47]).
    - simpl. destruct (Str.split 63 query); reflexivity.
    - reflexivity. }
  split; [discriminate|]. split; [discriminate|]. split; [exact Hj|].
  unfold server. rewrite Hj. reflexivity.
Qed.

(** ** Regular expressions *)

Lemma span_skip (p : N -> bool) (s : jsstring) : span p s ++ skip p s = s.
Proof.
  induction s as [|x s IH]; [reflexivity|]. simpl.
  destruct (p x); [simpl; rewrite IH|]; reflexivity.
Qed.

Lemma take_span (p : N -> bool) (s : jsstring) :
  take (length s - length (skip p s)) s = span p s.
Proof.
  rewrite <- (span_skip p s) at 1 3. rewrite length_app.
  replace (length (span p s) + length (skip p s) - length (skip p s))%nat
    with (length (span p s)) by lia.
  apply take_app_length.
Qed.

Lemma run_Lit (l s : jsstring) c k :
  Regex.run (Regex.Lit l) s c k
  = if Str.startsWith s l then k (drop (length l) s) c else None.
Proof.
  revert s. induction l as [|x l IH]; intros s; [reflexivity|].
  destruct s as [|y s]; [reflexivity|]. simpl. unfold Regex.exactly.
  rewrite N.eqb_sym. destruct (x =? y); [apply IH | reflexivity].
Qed.

Lemma run_LitI (l s : jsstring) c k :
  Regex.run (Regex.LitI l) s c k
  = if prefixI l s then k (drop (length l) s) c else None.
Proof.
  revert s. induction l as [|x l IH]; intros s; [reflexivity|].
  destruct s as [|y s]; [reflexivity|]. simpl.
  destruct (Regex.anycase x y); [apply IH | reflexivity].
Qed.

(** A repetition that fails has tried every split of the input. *)
Lemma star_none (p : N -> bool) (s : jsstring) k :
  Regex.star p s k = None ->
  forall a b, s = a ++ b -> Forall (fun x => p x = true) a -> k b = None.
Proof.
  induction s as [|x s IH]; simpl; intros H a b E Ha.
  - symmetry in E. apply app_eq_nil in E as [-> ->]. exact H.
  - destruct a as [|y a].
    + simpl in E. subst b. destruct (p x); [|exact H].
      destruct (Regex.star p s k); [discriminate | exact H].
    + injection E as <- ->. inversion Ha as [|? ? Hx Ha']; subst.
      rewrite Hx in H. destruct (Regex.star p (a ++ b) k) eqn:Es; [discriminate|].
      eapply IH; eauto.
Qed.

(** A repetition is greedy: where it succeeds, no longer run of units
    would have let the rest of the expression match. *)
Lemma star_greedy (p : N -> bool) (s : jsstring) k m :
  Regex.star p s k = Some m ->
  exists a b, s = a ++ b /\ Forall (fun x => p x = true) a /\ k b = Some m
    /\ forall a' b', s = a' ++ b' -> Forall (fun x => p x = true) a' ->
         (length a < length a')%nat -> k b' = None.
Proof.
  induction s as [|x s IH]; simpl; intros H.
  - exists [], []. repeat split; auto.
    intros a' b' E _ Hl. symmetry in E. apply app_eq_nil in E as [-> _]. simpl in Hl. lia.
  - destruct (p x) eqn:Hx.
    + destruct (Regex.star p s k) as [m'|] eqn:Es.
      * injection H as ->. destruct (IH eq_refl) as (a & b & -> & Ha & Hk & Hmax).
        exists (x :: a), b. repeat split; auto.
        intros a' b' E Ha' Hl. destruct a' as [|y a']; [simpl in Hl; lia|].
        injection E as <- E. inversion Ha'; subst.
        apply (Hmax a' b'); auto. simpl in Hl. lia.
      * exists [], (x :: s). repeat split; auto.
        intros a' b' E Ha' Hl. destruct a' as [|y a']; [simpl in Hl; lia|].
        injection E as <- ->. inversion Ha'; subst.
        eapply star_none; eauto.
    + exists [], (x :: s). repeat split; auto.
      intros a' b' E Ha' Hl. destruct a' as [|y a']; [simpl in Hl; lia|].
      injection E as <- ->. inversion Ha'; subst. congruence.
Qed.

(** When what follows a repetition cannot start with a unit of the
    repeated class, the repetition stops exactly where the class does. *)
Lemma star_until (p : N -> bool) (s : jsstring) k :
  (forall x t, p x = true -> k (x :: t) = None) ->
  Regex.star p s k = k (skip p s).
Proof.
  intros Hk. induction s as [|x s IH]; [reflexivity|]. simpl.
  destruct (p x) eqn:Hx; [|reflexivity].
  rewrite IH. destruct (k (skip p s)) eqn:E; [reflexivity|].
  apply Hk. exact Hx.
Qed.

Lemma group_plus (p : N -> bool) (i : nat) (s : jsstring) c k :
  (forall x t c', p x = true -> k (x :: t) c' = None) ->
  Regex.run (Regex.Group i (Regex.Plus p)) s c k
  = match s with
    | x :: t => if p x then k (skip p t) (<[i := x :: span p t]> c) else None
    | [] => None
    end.
Proof.
  intros Hk. destruct s as [|x t]; [reflexivity|]. simpl.
  destruct (p x) eqn:Hx; [|reflexivity].
  rewrite star_until.
  - f_equal. f_equal.
    pose proof (take_span p t) as Ht.
    pose proof (span_skip p t) as Hs.
    assert (length (skip p t) <= length t)%nat as Hle
      by (rewrite <- Hs at 2; rewrite length_app; lia).
    replace (S (length t) - length (skip p t))%nat
      with (S (length t - length (skip p t))) by lia.
    simpl. rewrite Ht. reflexivity.
  - intros y t' Hy. apply Hk. exact Hy.
Qed.

Lemma anycase_quote (x : N) : Regex.anycase 34 x = true <-> x = 34.
Proof.
  unfold Regex.anycase, Str.upperUnit. simpl.
  destruct (N.leb_spec 97 x), (N.leb_spec x 122); simpl; rewrite N.eqb_eq; lia.
Qed.

Lemma run_Seq (r1 r2 : Regex.regex) (s : jsstring) c k :
  Regex.run (Regex.Seq r1 r2) s c k
  = Regex.run r1 s c (fun s' c' => Regex.run r2 s' c' k).
Proof. reflexivity. Qed.

Lemma quote_refuses_class (x : N) (t : jsstring) c k :
  notQuote x = true -> Regex.run (Regex.LitI quote) (x :: t) c k = None.
Proof.
  unfold notQuote. intros Hx. simpl.
  destruct (Regex.anycase 34 x) eqn:E; [|reflexivity].
  apply anycase_quote in E. subst x. discriminate.
Qed.

Lemma prefixI_app (l1 l2 s : jsstring) :
  prefixI (l1 ++ l2) s = prefixI l1 s && prefixI l2 (drop (length l1) s).
Proof.
  revert s. induction l1 as [|c l1 IH]; intros s; [reflexivity|].
  destruct s as [|x s]; simpl.
  - destruct (l1 ++ l2); reflexivity.
  - rewrite IH, andb_assoc. reflexivity.
Qed.

Lemma anycase_dot (c x : N) :
  Regex.anycase c x = true -> Regex.dot c = true -> Regex.dot x = true.
Proof.
  unfold Regex.anycase, Regex.dot, Str.upperUnit.
  rewrite N.eqb_eq, !negb_true_iff, !orb_false_iff, !N.eqb_neq.
  destruct (N.leb_spec 97 x), (N.leb_spec x 122), (N.leb_spec 97 c), (N.leb_spec c 122);
    simpl; lia.
Qed.

Lemma prefixI_dot (l s : jsstring) :
  prefixI l s = true -> Forall (fun c => Regex.dot c = true) l ->
  Forall (fun x => Regex.dot x = true) (take (length l) s).
Proof.
  revert s. induction l as [|c l IH]; intros s H Hl; [constructor|].
  destruct s as [|x s]; [discriminate|]. simpl in *.
  apply andb_true_iff in H as [Hc H]. inversion Hl; subst.
  constructor; [eapply anycase_dot; eauto | apply IH; auto].
Qed.

(** The second half of the disposition expression, evaluated. *)
Lemma run_filenameRegex (r : jsstring) c m :
  Regex.run filenameRegex r c accept = Some m <->
  exists y u, prefixI (js "; filename=" ++ quote) r = true
    /\ drop 12 r = y :: u /\ notQuote y = true
    /\ prefixI quote (skip notQuote u) = true
    /\ m = <[2%nat := y :: span notQuote u]> c.
Proof.
  unfold filenameRegex. rewrite run_Seq, run_LitI.
  change (length (js "; filename=" ++ quote)) with 12%nat.
  destruct (prefixI _ r); [|split; [discriminate | intros (?&?&?&_); discriminate]].
  cbv beta. rewrite run_Seq, group_plus by (intros; apply quote_refuses_class; assumption).
  destruct (drop 12 r) as [|y u]; [split; [discriminate | intros (?&?&_&?&_); discriminate]|].
  destruct (notQuote y) eqn:Hy.
  - rewrite run_LitI. destruct (prefixI quote _) eqn:Hq.
    + unfold accept. split.
      * intros [= <-]. exists y, u. repeat split; auto.
      * intros (y' & u' & _ & [= <- <-] & _ & _ & ->). reflexivity.
    + split; [discriminate | intros (y' & u' & _ & [= <- <-] & _ & ? & _); congruence].
  - split; [discriminate | intros (y' & u' & _ & [= <- <-] & ? & _); congruence].
Qed.

(** The first half: the name, its closing quote, and then the file name
    when it follows at once. *)
Lemma run_nameRegex (b : jsstring) c m :
  Regex.run nameRegex b c accept = Some m <->
  exists x t, prefixI (js "name=" ++ quote) b = true
    /\ drop 6 b = x :: t /\ notQuote x = true
    /\ prefixI quote (skip notQuote t) = true
    /\ m = match Regex.run filenameRegex (drop 1 (skip notQuote t))
                   (<[1%nat := x :: span notQuote t]> c) accept with
           | Some c' => c'
           | None => <[1%nat := x :: span notQuote t]> c
           end.
Proof.
  unfold nameRegex. rewrite run_Seq, run_LitI.
  change (length (js "name=" ++ quote)) with 6%nat.
  destruct (prefixI _ b); [|split; [discriminate | intros (?&?&?&_); discriminate]].
  cbv beta. rewrite run_Seq, group_plus by (intros; apply quote_refuses_class; assumption).
  destruct (drop 6 b) as [|x t]; [split; [discriminate | intros (?&?&_&?&_); discriminate]|].
  destruct (notQuote x) eqn:Hx.
  - rewrite run_Seq, run_LitI. destruct (prefixI quote _) eqn:Hq.
    + cbv beta. change (length quote) with 1%nat.
      change (Regex.run (Regex.Opt filenameRegex) ?s ?c' accept)
        with (match Regex.run filenameRegex s c' accept with
              | Some c'' => Some c''
              | None => accept s c'
              end).
      unfold accept at 2. split.
      * intros H. exists x, t. repeat split; auto.
        destruct (Regex.run filenameRegex _ _ accept); congruence.
      * intros (x' & t' & _ & [= <- <-] & _ & _ & ->).
        destruct (Regex.run filenameRegex _ _ accept); reflexivity.
    + split; [discriminate | intros (x' & t' & _ & [= <- <-] & _ & ? & _); congruence].
  - split; [discriminate | intros (x' & t' & _ & [= <- <-] & ? & _); congruence].
Qed.

Lemma exec_run (r : Regex.regex) (h : jsstring) m :
  Regex.exec r h = Some m ->
  exists pre s, h = pre ++ s /\ Regex.run r s ∅ accept = Some m.
Proof.
  induction h as [|x h IH]; simpl; intros H.
  - exists [], []. split; [reflexivity|].
    unfold accept. destruct (Regex.run r [] ∅ _); [exact H | discriminate].
  - fold accept in H. destruct (Regex.run r (x :: h) ∅ accept) eqn:E.
    + exists [], (x :: h). split; [reflexivity | congruence].
    + destruct (IH H) as (pre & s & -> & Hs). exists (x :: pre), s. auto.
Qed.

(** Where the name is followed by a file name, the expression also matches
    seventeen units further on, at the [name=] inside [filename=], and
    none of the units in between ends the line. *)
Lemma name_then_filename (b : jsstring) m :
  Regex.run nameRegex b ∅ accept = Some m ->
  m !! 1%nat = Some (js "file") -> truthy (m !! 2%nat) = true ->
  exists pre b', b = pre ++ b' /\ pre <> []
    /\ Forall (fun x => Regex.dot x = true) pre
    /\ is_Some (Regex.run nameRegex b' ∅ accept).
Proof.
  intros H H1 H2. apply run_nameRegex in H as (x & t & Hp & Hd & Hx & Hq & ->).
  destruct (Regex.run filenameRegex _ _ accept) as [c'|] eqn:Ef; cycle 1.
  { rewrite lookup_insert_ne, lookup_empty in H2 by discriminate. discriminate. }
  apply run_filenameRegex in Ef as (y & u & Hp2 & Hd2 & Hy & Hq2 & ->).
  rewrite lookup_insert_ne, lookup_insert_eq in H1 by discriminate.
  apply (inj Some) in H1. rename H1 into Hname.
  set (r1 := drop 1 (skip notQuote t)) in *.
  change (js "; filename=" ++ quote) with (js "; file" ++ (js "name=" ++ quote)) in Hp2.
  rewrite prefixI_app in Hp2. apply andb_true_iff in Hp2 as [Hp2 Hp3].
  change (length (js "; file")) with 6%nat in Hp3.
  exists (take 6 b ++ js "file" ++ take 1 (skip notQuote t) ++ take 6 r1), (drop 6 r1).
  split; [|split; [|split]].
  - rewrite <- !app_assoc. rewrite (take_drop 6 r1). unfold r1.
    rewrite (take_drop 1 (skip notQuote t)).
    rewrite <- (take_drop 6 b) at 1. f_equal. rewrite Hd.
    rewrite <- (span_skip notQuote t) at 1.
    rewrite <- Hname. reflexivity.
  - intros E. apply app_eq_nil in E as [_ E]. discriminate.
  - apply Forall_app. split.
    { apply (prefixI_dot (js "name=" ++ quote)); [exact Hp | repeat constructor]. }
    apply Forall_app. split; [repeat constructor|].
    apply Forall_app. split.
    { apply (prefixI_dot quote); [exact Hq | repeat constructor]. }
    apply (prefixI_dot (js "; file")); [exact Hp2 | repeat constructor].
  - eexists. apply run_nameRegex. exists y, u.
    rewrite drop_drop. change (6 + 6)%nat with 12%nat.
    repeat split; auto.
Qed.

(** The defect of the disposition expression.  Its [.*] is greedy, and
    [filename=] ends in [name=]: whenever the header holds the field name
    [file] followed by a file name, the match preferred is the one whose
    first group is that file name and whose second group is undefined.  So
    no match has both the first group equal to [file] and the second group
    set. *)
Lemma disposition_never_file (headerText : jsstring) m :
  Regex.exec dispositionRegex headerText = Some m ->
  m !! 1%nat = Some (js "file") -> truthy (m !! 2%nat) = true -> False.
Proof.
  intros H H1 H2. apply exec_run in H as (pre0 & s & _ & H).
  change dispositionRegex
    with (Regex.Seq (Regex.LitI (js "content-disposition:"))
            (Regex.Seq (Regex.Star Regex.dot) nameRegex)) in H.
  rewrite run_Seq, run_LitI in H.
  destruct (prefixI _ s); [|discriminate]. cbv beta in H.
  change (Regex.run (Regex.Seq (Regex.Star Regex.dot) nameRegex) ?s' ∅ accept)
    with (Regex.star Regex.dot s' (fun s'' => Regex.run nameRegex s'' ∅ accept)) in H.
  apply star_greedy in H as (a & b & E & Ha & Hk & Hmax).
  destruct (name_then_filename b m Hk H1 H2) as (pre & b' & -> & Hne & Hd & [m' Hm']).
  rewrite (Hmax (a ++ pre) b') in Hm'; [discriminate | | |].
  - rewrite E, app_assoc. reflexivity.
  - apply Forall_app. auto.
  - rewrite length_app. destruct pre; [congruence | simpl; lia].
Qed.

(** ** The upload handlers *)

(** No part is ever written or refused for its extension: the test on the
    field name and the file name fails for every part, and the loop runs to
    the end of the parts. *)
Lemma forParts_exhausted (env : environment) (now : N) (fs : filesystem)
    (parts : list Buffer) :
  forParts env now fs parts = Normal Exhausted.
Proof.
  induction parts as [|part rest IH]; [reflexivity|]. simpl.
  destruct (_ =? -1)%Z; [exact IH|].
  destruct (Regex.exec dispositionRegex _) as [m|] eqn:Em; [|exact IH].
  destruct (negb (bool_decide (m !! 1%nat = Some (js "file"))) || negb (truthy (m !! 2%nat)))
    eqn:Et; [exact IH|].
  exfalso. apply orb_false_iff in Et as [E1 E2].
  apply negb_false_iff in E1, E2. apply bool_decide_eq_true in E1.
  eapply disposition_never_file; eauto.
Qed.

(** So the [end] handler answers 400, where no response has been written
    yet; where one has, its [send] throws. *)
Lemma onEnd_responds (env : environment) (now : N) (u : upload) :
  onEnd env now u = respond u noFile.
Proof. unfold onEnd. rewrite forParts_exhausted. destruct u; reflexivity. Qed.

Lemma onEnd_no_file (env : environment) (now : N) (u : upload) :
  sent u = [] ->
  onEnd env now u
  = Normal {| boundary := boundary u; totalBytes := totalBytes u;
              chunks := chunks u; destroyed := destroyed u;
              sent := [noFile]; disk := disk u |}.
Proof. intros H. rewrite onEnd_responds. unfold respond. rewrite H. reflexivity. Qed.

Lemma len_nonneg (b : Buffer) : (0 <= Buf.len b)%Z.
Proof. unfold Buf.len. lia. Qed.

Lemma bodyBytes_nonneg (body : list Buffer) : (0 <= bodyBytes body)%Z.
Proof.
  induction body as [|c body IH]; simpl; [lia|].
  pose proof (len_nonneg c). lia.
Qed.

Lemma bodyBytes_app (a b : list Buffer) :
  bodyBytes (a ++ b) = (bodyBytes a + bodyBytes b)%Z.
Proof. induction a as [|c a IH]; simpl; [reflexivity | rewrite IH; lia]. Qed.

Lemma buffered_nil (u : upload) : buffered u [] = u.
Proof.
  destruct u. unfold buffered. simpl. rewrite Z.add_0_r, app_nil_r. reflexivity.
Qed.

(** While the count stays within the limit every chunk is kept, and nothing
    is sent. *)
Lemma receive_within_limit (env : environment) (now : N) (body : list Buffer) :
  forall (u : upload) (events : list event),
  destroyed u = false ->
  (totalBytes u + bodyBytes body <= MAX_UPLOAD_BYTES)%Z ->
  receive env now u (List.map Data body ++ events)
  = receive env now (buffered u body) events.
Proof.
  induction body as [|c body IH]; intros u events Hd Hle.
  - rewrite buffered_nil. reflexivity.
  - simpl in *. unfold handle. rewrite Hd. simpl.
    pose proof (bodyBytes_nonneg body) as Hb. pose proof (len_nonneg c) as Hc.
    unfold onData.
    destruct (Z.gtb_spec (totalBytes u + Buf.len c) MAX_UPLOAD_BYTES) as [Hgt|_]; [lia|].
    unfold mbind, mret, completion_bind, completion_ret.
    rewrite IH; simpl; [|exact Hd|lia].
    f_equal. unfold buffered. simpl. rewrite <- app_assoc. f_equal. lia.
Qed.

(** A destroyed request stream delivers nothing more. *)
Lemma receive_destroyed (env : environment) (now : N) (u : upload) (events : list event) :
  destroyed u = true -> receive env now u events = Normal u.
Proof.
  intros Hd. induction events as [|e events IH]; [reflexivity|].
  simpl. unfold handle. rewrite Hd. simpl. exact IH.
Qed.

(** A body over the limit has a chunk at which the count first exceeds
    it. *)
Lemma crossing_chunk (body : list Buffer) (seen : Z) :
  (seen <= MAX_UPLOAD_BYTES < seen + bodyBytes body)%Z ->
  exists pre chunk post, body = pre ++ chunk :: post
    /\ (seen + bodyBytes pre <= MAX_UPLOAD_BYTES
        < seen + bodyBytes pre + Buf.len chunk)%Z.
Proof.
  revert seen. induction body as [|c body IH]; intros seen H; simpl in *; [lia|].
  destruct (Z.ltb_spec MAX_UPLOAD_BYTES (seen + Buf.len c)) as [Hc|Hc].
  - exists [], c, body. simpl. split; [reflexivity | lia].
  - destruct (IH (seen + Buf.len c)%Z ltac:(lia)) as (pre & chunk & post & -> & Hp).
    exists (c :: pre), chunk, post. simpl. split; [reflexivity | lia].
Qed.

(** C3: a body of exactly [MAX_UPLOAD_BYTES] octets is not refused for its
    size: every chunk is buffered, the [end] handler runs on the whole body
    and its one response is not a 413.  A body of at least one octet more
    is answered 413 by the [data] handler of the chunk at which the count
    first exceeds the limit: before that chunk nothing is sent, with it the
    stream is destroyed and the 413 sent, nothing follows, and the files
    are as they were. *)
Theorem upload_size_limit (env : environment) (now : N) (bnd : jsstring)
    (fs : filesystem) (body : list Buffer) :
  (bodyBytes body = MAX_UPLOAD_BYTES ->
     exists u r, receive env now (listen bnd fs) (stream body) = Normal u
       /\ chunks u = body /\ destroyed u = false
       /\ sent u = [r] /\ statusCode r <> 413%Z)
  /\ (MAX_UPLOAD_BYTES < bodyBytes body ->
        exists pre chunk post, body = pre ++ chunk :: post
          /\ (bodyBytes pre <= MAX_UPLOAD_BYTES < bodyBytes pre + Buf.len chunk)%Z
          /\ receive env now (listen bnd fs) (List.map Data pre)
             = Normal (buffered (listen bnd fs) pre)
          /\ receive env now (listen bnd fs) (stream body)
             = Normal {| boundary := bnd;
                         totalBytes := bodyBytes pre + Buf.len chunk;
                         chunks := pre; destroyed := true;
                         sent := [tooLarge]; disk := fs |})%Z.
Proof.
  split.
  - intros Ht. unfold stream.
    rewrite receive_within_limit by (simpl; lia).
    simpl. unfold handle. simpl. rewrite onEnd_no_file by reflexivity. simpl.
    eexists _, noFile. split; [reflexivity|]. simpl. repeat split. discriminate.
  - intros Ht.
    destruct (crossing_chunk body 0 ltac:(unfold MAX_UPLOAD_BYTES in *; lia))
      as (pre & chunk & post & -> & Hp).
    exists pre, chunk, post. split; [reflexivity|]. split; [lia|]. split.
    + rewrite <- (app_nil_r (List.map Data pre)).
      rewrite receive_within_limit by (simpl; lia). reflexivity.
    + unfold stream. rewrite List.map_app, <- app_assoc.
      rewrite receive_within_limit by (simpl; lia).
      simpl. unfold handle, onData, respond. simpl. rewrite !Z.add_0_l in *.
      destruct (Z.gtb_spec (bodyBytes pre + Buf.len chunk) MAX_UPLOAD_BYTES) as [_|Hle]; [|lia].
      unfold mbind, completion_bind, mret, completion_ret.
      rewrite receive_destroyed by reflexivity. reflexivity.
Qed.


(** ** The boundary parameter *)

Lemma includes_app (pre s p : jsstring) :
  Str.startsWith s p = true -> Str.includes (pre ++ s) p = true.
Proof.
  intros H. induction pre as [|x pre IH]; simpl.
  - destruct s; simpl; rewrite H; reflexivity.
  - rewrite IH. apply orb_true_r.
Qed.

(** The boundary expression only matches a header value that holds
    [boundary=]. *)
Lemma boundary_match_includes (contentType : jsstring) m :
  Regex.exec boundaryRegex contentType = Some m ->
  Str.includes contentType (js "boundary=") = true.
Proof.
  intros H. apply exec_run in H as (pre & s & -> & H).
  unfold boundaryRegex in H. rewrite run_Seq, run_Lit in H.
  destruct (Str.startsWith s (js "boundary=")) eqn:E; [|discriminate].
  apply includes_app. exact E.
Qed.

(** C7: a POST to [/upload] whose content type holds [multipart/form-data]
    and no [boundary=] is answered 400 by [handleUpload] itself: it returns
    with the response written and no [data] or [end] handler registered,
    so nothing of the body is read. *)
Theorem missing_boundary_is_400 (env : environment) (fs : filesystem)
    (req : request) (contentType : jsstring) :
  method req = js "POST" -> url req = js "/upload" ->
  headers req !! js "content-type" = Some contentType ->
  Str.includes contentType (js "multipart/form-data") = true ->
  Str.includes contentType (js "boundary=") = false ->
  handleUpload req
    = Answered (send 400 (js "text/plain") (Text (js "Missing boundary")))
  /\ server env fs req
     = Normal (Upload (Answered (send 400 (js "text/plain")
                                   (Text (js "Missing boundary"))))).
Proof.
  intros Hm Hu Hh Hi Hb.
  assert (handleUpload req
          = Answered (send 400 (js "text/plain") (Text (js "Missing boundary")))) as H.
  { unfold handleUpload. rewrite Hh.
    assert (orElse (Some contentType) [] = contentType) as -> by (destruct contentType; reflexivity).
    rewrite Hi. simpl.
    destruct (Regex.exec boundaryRegex contentType) as [m|] eqn:E; [|reflexivity].
    apply boundary_match_includes in E. congruence. }
  split; [exact H|].
  unfold server. rewrite Hm, Hu, H. reflexivity.
Qed.

Lemma missing_boundary_is_400_witness :
  server exampleEnv ∅
    {| method := js "POST"; url := js "/upload";
       headers := {[ js "content-type" := js "multipart/form-data" ]} |}
  = Normal (Upload (Answered (send 400 (js "text/plain") (Text (js "Missing boundary"))))).
Proof.
  apply (missing_boundary_is_400 _ _ _ (js "multipart/form-data")); reflexivity.
Defined.

(** ** The branches of the router *)

Lemma replace_prefix (p rest : jsstring) : Str.replace (p ++ rest) p [] = rest.
Proof.
  assert (Str.startsWith (p ++ rest) p = true) as H
    by (apply startsWith_app; exists rest; reflexivity).
  destruct (p ++ rest) eqn:E; simpl; rewrite H; simpl; rewrite <- E;
    apply drop_app_length.
Qed.

Lemma resolved_or_forbidden (env : environment) (fs : filesystem)
    (baseDir urlPath : jsstring) :
  (safeJoin baseDir urlPath = Normal None ->
     (resolved ← safeJoin baseDir urlPath;
      if falsy resolved then mret (Respond forbidden)
      else Respond <$> serveFile env fs (default [] resolved))
     = Normal (Respond forbidden))
  /\ (forall absPath, safeJoin baseDir urlPath = Normal (Some absPath) ->
        (resolved ← safeJoin baseDir urlPath;
         if falsy resolved then mret (Respond forbidden)
         else Respond <$> serveFile env fs (default [] resolved))
        = Respond <$> serveFile env fs absPath).
Proof.
  split.
  - intros ->. reflexivity.
  - intros absPath H. pose proof (safeJoin_nonempty _ _ _ H) as Ht.
    rewrite H. simpl. unfold falsy. rewrite Ht. reflexivity.
Qed.

(** C8: the callback takes exactly one branch, chosen by the method and
    the URL.  POST [/upload] is handed to [handleUpload]; any other request
    whose method is neither GET nor HEAD is answered 405; a GET or HEAD of
    [/] or [/index.html] is served [index.html] of the public root; one of
    a URL that starts with [/uploads/] is resolved, without that prefix,
    against the upload root; one of any other URL is resolved against the
    public root; and in both a [null] from [safeJoin] is answered 403 and a
    path is handed to [serveFile].  What a branch that serves a file gives
    is what [serveFile] gives on that path: the response it writes, or,
    for a path that holds a null character, the exception of
    [fs.readFile], which leaves the callback.  Every request meets one of
    the five conditions, and no request meets two. *)
Theorem router_branches (env : environment) (fs : filesystem) (req : request) :
  let readOnly := method req = js "GET" \/ method req = js "HEAD" in
  (method req = js "POST" /\ url req = js "/upload" ->
     server env fs req = Normal (Upload (handleUpload req)))
  /\ (~ (method req = js "POST" /\ url req = js "/upload") -> ~ readOnly ->
        server env fs req
        = Normal (Respond (send 405 (js "text/plain") (Text (js "Method Not Allowed")))))
  /\ (readOnly -> url req = js "/" \/ url req = js "/index.html" ->
        server env fs req
        = Respond <$> serveFile env fs (Path.join [PUBLIC_DIR env; js "index.html"]))
  /\ (readOnly -> forall rest, url req = js "/uploads/" ++ rest ->
        (safeJoin (UPLOAD_DIR env) rest = Normal None ->
           server env fs req = Normal (Respond forbidden))
        /\ (forall absPath, safeJoin (UPLOAD_DIR env) rest = Normal (Some absPath) ->
              server env fs req = Respond <$> serveFile env fs absPath))
  /\ (readOnly -> url req <> js "/" -> url req <> js "/index.html" ->
        Str.startsWith (url req) (js "/uploads/") = false ->
        (safeJoin (PUBLIC_DIR env) (url req) = Normal None ->
           server env fs req = Normal (Respond forbidden))
        /\ (forall absPath, safeJoin (PUBLIC_DIR env) (url req) = Normal (Some absPath) ->
              server env fs req = Respond <$> serveFile env fs absPath))
  /\ ((method req = js "POST" /\ url req = js "/upload")
      \/ (~ (method req = js "POST" /\ url req = js "/upload") /\ ~ readOnly)
      \/ (readOnly /\ (url req = js "/" \/ url req = js "/index.html"))
      \/ (readOnly /\ exists rest, url req = js "/uploads/" ++ rest)
      \/ (readOnly /\ url req <> js "/" /\ url req <> js "/index.html"
          /\ Str.startsWith (url req) (js "/uploads/") = false))
  /\ (readOnly -> method req <> js "POST")
  /\ (url req = js "/" \/ url req = js "/index.html" ->
        Str.startsWith (url req) (js "/uploads/") = false).
Proof.
  intros readOnly. unfold readOnly.
  assert (forall m, m = js "GET" \/ m = js "HEAD" ->
          str_eqb m (js "POST") = false
          /\ negb (str_eqb m (js "GET")) && negb (str_eqb m (js "HEAD")) = false) as Hro.
  { intros m [-> | ->]; split; reflexivity. }
  repeat apply conj.
  - intros [Hm Hu]. unfold server. rewrite Hm, Hu. reflexivity.
  - intros Hn Hr. unfold server.
    destruct (str_eqb (method req) (js "POST") && str_eqb (url req) (js "/upload")) eqn:E.
    { apply andb_true_iff in E as [E1 E2]. apply str_eqb_eq in E1, E2. tauto. }
    destruct (str_eqb (method req) (js "GET")) eqn:Eg; [apply str_eqb_eq in Eg; tauto|].
    destruct (str_eqb (method req) (js "HEAD")) eqn:Eh; [apply str_eqb_eq in Eh; tauto|].
    reflexivity.
  - intros Hr Hu. destruct (Hro _ Hr) as [E1 E2]. unfold server. rewrite E1, E2. simpl.
    destruct Hu as [-> | ->]; reflexivity.
  - intros Hr rest Hu. destruct (Hro _ Hr) as [E1 E2].
    assert (server env fs req
            = (uploadPath ← safeJoin (UPLOAD_DIR env) rest;
               if falsy uploadPath then mret (Respond forbidden)
               else Respond <$> serveFile env fs (default [] uploadPath))) as ->.
    { unfold server. rewrite E1, E2, Hu. simpl andb. cbv iota.
      rewrite replace_prefix. reflexivity. }
    apply resolved_or_forbidden.
  - intros Hr Hu1 Hu2 Hs. destruct (Hro _ Hr) as [E1 E2].
    assert (server env fs req
            = (filePath ← safeJoin (PUBLIC_DIR env) (url req);
               if falsy filePath then mret (Respond forbidden)
               else Respond <$> serveFile env fs (default [] filePath))) as ->.
    { unfold server. rewrite E1, E2, Hs. simpl andb. cbv iota.
      apply str_eqb_neq in Hu1, Hu2. rewrite Hu1, Hu2. reflexivity. }
    apply resolved_or_forbidden.
  - destruct (decide (method req = js "POST" /\ url req = js "/upload")) as [Hp|Hp];
      [left; exact Hp|].
    destruct (decide (method req = js "GET" \/ method req = js "HEAD")) as [Hr|Hr];
      [|right; left; split; assumption].
    destruct (decide (url req = js "/" \/ url req = js "/index.html")) as [Hi|Hi];
      [right; right; left; split; assumption|].
    destruct (Str.startsWith (url req) (js "/uploads/")) eqn:Es.
    + apply startsWith_app in Es. right; right; right; left. split; assumption.
    + right; right; right; right.
      repeat split; [assumption| |]; intros E; apply Hi; auto.
  - intros [-> | ->]; discriminate.
  - intros [-> | ->]; reflexivity.
Qed.

(** ** [splitBuffer] *)

Lemma buf_startsWith_app (b v : Buffer) :
  Buf.startsWith b v = true <-> exists t, b = v ++ t.
Proof.
  revert b. induction v as [|x v IH]; intros b; simpl.
  - split; [exists b; reflexivity | reflexivity].
  - destruct b as [|y b]; simpl.
    + split; [discriminate | intros [t Ht]; discriminate].
    + rewrite andb_true_iff, N.eqb_eq, IH. split.
      * intros [-> [t ->]]. exists t. reflexivity.
      * intros [t Ht]. injection Ht as -> ->. split; [reflexivity | exists t; reflexivity].
Qed.

(** A pending wait passes over that many octets. *)
Lemma scan_wait (sep : Buffer) (w : nat) (b : Buffer) :
  scan sep w b = scan sep 0 (drop w b).
Proof.
  revert w. induction b as [|x b IH]; intros w.
  - destruct w; reflexivity.
  - destruct w as [|w]; [reflexivity|]. simpl. apply IH.
Qed.

Lemma find_none (b v : Buffer) :
  v <> [] -> Buf.find b v = None -> occurrences v b = 0%nat.
Proof.
  intros Hv. unfold occurrences. induction b as [|x b IH]; [reflexivity|].
  simpl. destruct v as [|y v]; [congruence|].
  change (Buf.startsWith (x :: b) (y :: v)) with ((y =? x) && Buf.startsWith b v).
  destruct ((y =? x) && Buf.startsWith b v); [discriminate|].
  destruct (Buf.find b (y :: v)); [discriminate|]. intros _. apply IH. reflexivity.
Qed.

(** Where [find] stops there is an occurrence, the first one, and the scan
    goes on behind it. *)
Lemma find_some (b v : Buffer) (i : nat) :
  v <> [] -> Buf.find b v = Some i ->
  b = take i b ++ v ++ drop (i + length v) b
  /\ (i + length v <= length b)%nat
  /\ occurrences v b = S (occurrences v (drop (i + length v) b)).
Proof.
  intros Hv. unfold occurrences. revert i.
  induction b as [|x b IH]; intros i.
  - destruct v; [congruence | discriminate].
  - unfold Buf.find; fold Buf.find.
    destruct (Buf.startsWith (x :: b) v) eqn:Es.
    + intros [= <-]. pose proof Es as Et.
      apply buf_startsWith_app in Et as [t Ht].
      simpl take. simpl Nat.add. split; [|split].
      * rewrite Ht, drop_app_length. reflexivity.
      * rewrite Ht, length_app. lia.
      * simpl scan. rewrite Es. f_equal. rewrite scan_wait.
        destruct v as [|y v]; [congruence|]. simpl. rewrite Nat.sub_0_r.
        injection Ht as _ ->. rewrite !drop_app_length. reflexivity.
    + destruct (Buf.find b v) as [j|] eqn:Ef; [|discriminate].
      intros [= <-]. destruct (IH j eq_refl) as (Hb & Hl & Ho).
      simpl. rewrite Es. split; [f_equal; exact Hb|]. split; [lia | exact Ho].
Qed.

Lemma indexOf_find (buffer sep : Buffer) (start : nat) :
  Buf.indexOf buffer sep (Z.of_nat start)
  = match Buf.find (drop start buffer) sep with
    | Some i => Z.of_nat (start + i)
    | None => (-1)%Z
    end.
Proof.
  unfold Buf.indexOf. rewrite Nat2Z.id.
  destruct (Buf.find _ _); [f_equal; lia | reflexivity].
Qed.

Lemma sliceFrom_drop (buffer : Buffer) (start : nat) :
  (start <= length buffer)%nat ->
  Buf.sliceFrom buffer (Z.of_nat start) = drop start buffer.
Proof.
  intros H. unfold Buf.sliceFrom, Buf.slice, Buf.clamp, Buf.len.
  destruct (Z.ltb_spec (Z.of_nat start) 0); [lia|].
  destruct (Z.ltb_spec (Z.of_nat (length buffer)) 0); [lia|].
  rewrite Z.min_id, Z.min_l, Nat2Z.id by lia.
  apply take_ge. rewrite length_drop. lia.
Qed.

Lemma slice_take_drop (buffer : Buffer) (start i : nat) :
  (start + i <= length buffer)%nat ->
  Buf.slice buffer (Z.of_nat start) (Z.of_nat (start + i)) = take i (drop start buffer).
Proof.
  intros H. unfold Buf.slice, Buf.clamp, Buf.len.
  destruct (Z.ltb_spec (Z.of_nat start) 0); [lia|].
  destruct (Z.ltb_spec (Z.of_nat (start + i)) 0); [lia|].
  rewrite !Z.min_l, Nat2Z.id by lia. f_equal. lia.
Qed.

(** The loop, from any [start] it can reach, with fuel for what is left of
    the buffer. *)
Lemma splitLoop_from (fuel : nat) (buffer sep : Buffer) :
  sep <> [] ->
  forall (parts : list Buffer) (start : nat),
  (start <= length buffer)%nat -> (length buffer - start < fuel)%nat ->
  exists frags,
    splitLoop fuel buffer sep parts (Z.of_nat start)
      (Buf.indexOf buffer sep (Z.of_nat start)) = Some (parts ++ frags)
    /\ length frags = S (occurrences sep (drop start buffer))
    /\ rejoin sep frags = drop start buffer.
Proof.
  intros Hsep. induction fuel as [|fuel IH]; intros parts start Hs Hf; [lia|].
  rewrite indexOf_find. simpl.
  destruct (Buf.find (drop start buffer) sep) as [i|] eqn:Ef.
  - destruct (find_some _ _ _ Hsep Ef) as (Hb & Hl & Ho).
    rewrite length_drop in Hl.
    destruct (Z.eqb_spec (Z.of_nat (start + i)) (-1)) as [E|_]; [lia|].
    assert (0 < length sep)%nat as Hpos by (destruct sep; [congruence | simpl; lia]).
    replace (Z.of_nat (start + i) + Buf.len sep)%Z
      with (Z.of_nat (start + i + length sep)) by (unfold Buf.len; lia).
    destruct (IH (parts ++ [Buf.slice buffer (Z.of_nat start) (Z.of_nat (start + i))])
                 (start + i + length sep)%nat ltac:(lia) ltac:(lia))
      as (frags & -> & Hn & Hj).
    exists (take i (drop start buffer) :: frags).
    rewrite slice_take_drop by lia. rewrite <- app_assoc. split; [reflexivity|].
    rewrite drop_drop in Ho, Hb.
    replace (start + (i + length sep))%nat with (start + i + length sep)%nat in Ho, Hb by lia.
    split.
    + simpl. rewrite Hn, Ho. reflexivity.
    + destruct frags as [|f frags]; [discriminate|].
      change (rejoin sep (take i (drop start buffer) :: f :: frags))
        with (take i (drop start buffer) ++ sep ++ rejoin sep (f :: frags)).
      rewrite Hj. symmetry. exact Hb.
  - simpl. exists [drop start buffer]. rewrite sliceFrom_drop by lia.
    split; [reflexivity|]. split; [|reflexivity].
    rewrite (find_none _ _ Hsep Ef). reflexivity.
Qed.

(** With the empty separator the loop of [splitBuffer] finds an occurrence
    at [start] itself and never moves on: no bound on its iterations is
    enough. *)
Lemma splitLoop_empty_separator (fuel : nat) (buffer : Buffer) :
  forall (parts : list Buffer) (start : nat), (start <= length buffer)%nat ->
  splitLoop fuel buffer [] parts (Z.of_nat start) (Z.of_nat start) = None.
Proof.
  induction fuel as [|fuel IH]; intros parts start Hs; simpl.
  - destruct (Z.eqb_spec (Z.of_nat start) (-1)); [lia | reflexivity].
  - destruct (Z.eqb_spec (Z.of_nat start) (-1)); [lia|].
    change (Buf.len []) with 0%Z. rewrite Z.add_0_r.
    rewrite indexOf_find.
    assert (Buf.find (drop start buffer) [] = Some 0%nat) as ->
      by (destruct (drop start buffer); reflexivity).
    rewrite Nat.add_0_r. apply IH. exact Hs.
Qed.

(** C9: with a non-empty separator [splitBuffer] returns, the fragments are
    one more than the occurrences of the separator a scan from left to
    right finds, and put together again with the separator between each two
    they are the buffer. *)
Theorem splitBuffer_fragments (buffer separator : Buffer) :
  separator <> [] ->
  exists parts, splitBuffer buffer separator = Some parts
    /\ length parts = S (occurrences separator buffer)
    /\ rejoin separator parts = buffer.
Proof.
  intros Hsep.
  destruct (splitLoop_from (S (length buffer)) buffer separator Hsep [] 0%nat
              ltac:(lia) ltac:(lia)) as (frags & H & Hn & Hj).
  exists frags. unfold splitBuffer. split; [exact H|]. split; assumption.
Qed.

Lemma splitBuffer_fragments_witness :
  exists parts, splitBuffer [1; 2; 9; 9; 3; 9; 9; 9; 4] [9; 9] = Some parts
    /\ length parts = S (occurrences [9; 9] [1; 2; 9; 9; 3; 9; 9; 9; 4])
    /\ rejoin [9; 9] parts = [1; 2; 9; 9; 3; 9; 9; 9; 4].
Proof. apply (splitBuffer_fragments [1; 2; 9; 9; 3; 9; 9; 9; 4] [9; 9]). discriminate. Defined.

(** ** Uploads *)

(** The separator of [parseMultipart] is never empty, so its call of
    [splitBuffer] returns. *)
Lemma parseMultipart_split_returns (buffer : Buffer) (bnd : jsstring) :
  is_Some (splitBuffer buffer (Utf.encode (js "--" ++ bnd))).
Proof.
  unfold splitBuffer.
  destruct (splitLoop_from (S (length buffer)) buffer (Utf.encode (js "--" ++ bnd))
              ltac:(discriminate) [] 0%nat ltac:(lia) ltac:(lia)) as (frags & H & _).
  exists frags. exact H.
Qed.

(** The parser finds the one part of the scenario, and the disposition
    expression captures the file name as the field name. *)
Example reportBody_parsed :
  parseMultipart reportBody (js "XYZ") = [reportPart]
  /\ Regex.exec dispositionRegex
       (fileHeaders (js "file") (js "report.pdf") (js "application/pdf"))
     = Some {[ 1%nat := js "report.pdf" ]}.
Proof. split; vm_compute; reflexivity. Qed.

(** A body within the size limit, whatever it holds, is answered 400
    [No file uploaded], and no file is written. *)
Lemma receive_whole_body (env : environment) (now : N) (bnd : jsstring)
    (fs : filesystem) (body : list Buffer) :
  (bodyBytes body <= MAX_UPLOAD_BYTES)%Z ->
  exists u, receive env now (listen bnd fs) (stream body) = Normal u
    /\ sent u = [noFile] /\ disk u = fs.
Proof.
  intros H. unfold stream. rewrite receive_within_limit by (simpl; lia).
  simpl. unfold handle. simpl. rewrite onEnd_no_file by reflexivity.
  eexists. split; [reflexivity|]. split; reflexivity.
Qed.

(** C2, as the code has it: whatever the body of an upload within the size
    limit, the [end] handler answers 400 [No file uploaded] and writes no
    file, so no name is returned, and a name under the upload root that
    was missing before the upload is answered 404 after it (or, where the
    path holds a null character, [fs.readFile] throws as it did before).
    The round trip of the claim needs a stored file, and the handler never
    stores one. *)
Theorem upload_never_stored (env : environment) (now : N) (bnd : jsstring)
    (fs : filesystem) (body : list Buffer) :
  (bodyBytes body <= MAX_UPLOAD_BYTES)%Z ->
  exists u, receive env now (listen bnd fs) (stream body) = Normal u
    /\ sent u = [noFile] /\ disk u = fs
    /\ forall name, fs !! Path.join [UPLOAD_DIR env; name] = None ->
         serveFile env (disk u) (Path.join [UPLOAD_DIR env; name])
         = if bool_decide (0 ∈ Path.join [UPLOAD_DIR env; name])
           then Throw ERR_INVALID_ARG_VALUE
           else Normal (send 404 (js "text/html")
                          (Text (js "<h1>404 - File Not Found</h1>"))).
Proof.
  intros H. destruct (receive_whole_body env now bnd fs body H) as (u & Hu & Hs & Hd).
  exists u. repeat split; try assumption.
  intros name Hn. unfold serveFile, readFile. rewrite Hd, Hn.
  destruct (bool_decide _); reflexivity.
Qed.

Lemma upload_never_stored_witness :
  server exampleEnv ∅ (uploadRequest (js "XYZ")) = Normal (Upload (Listening (js "XYZ")))
  /\ exists u, receive exampleEnv 1700000000000 (listen (js "XYZ") ∅) (stream [reportBody])
               = Normal u
       /\ sent u = [noFile] /\ disk u = ∅
       /\ forall name, (∅ : filesystem) !! Path.join [UPLOAD_DIR exampleEnv; name] = None ->
            serveFile exampleEnv (disk u) (Path.join [UPLOAD_DIR exampleEnv; name])
            = if bool_decide (0 ∈ Path.join [UPLOAD_DIR exampleEnv; name])
              then Throw ERR_INVALID_ARG_VALUE
              else Normal (send 404 (js "text/html")
                             (Text (js "<h1>404 - File Not Found</h1>"))).
Proof.
  split; [vm_compute; reflexivity|].
  apply (upload_never_stored exampleEnv 1700000000000 (js "XYZ") ∅ [reportBody]).
  vm_compute. discriminate.
Defined.

(** C5, at an upload of [evil.exe] in the field [file]: the response is
    400 [No file uploaded], where the claim has 415; no file is written. *)
Theorem disallowed_extension_answered_400 (env : environment) (now : N)
    (fs : filesystem) :
  parseMultipart (formData (js "XYZ") [exePart]) (js "XYZ") = [exePart]
  /\ exists u, receive env now (listen (js "XYZ") fs)
                 (stream [formData (js "XYZ") [exePart]]) = Normal u
       /\ sent u = [noFile] /\ disk u = fs.
Proof.
  split; [vm_compute; reflexivity|].
  apply receive_whole_body. vm_compute. discriminate.
Qed.

(** C6, at an upload of four parts, the last two of them file fields: no
    part is stored, the first file field no more than the second, and the
    response is 400 [No file uploaded]. *)
Theorem first_file_part_not_stored (env : environment) (now : N) (fs : filesystem) :
  parseMultipart (formData (js "XYZ") severalParts) (js "XYZ") = severalParts
  /\ forParts env now fs severalParts = Normal Exhausted
  /\ exists u, receive env now (listen (js "XYZ") fs)
                 (stream [formData (js "XYZ") severalParts]) = Normal u
       /\ sent u = [noFile] /\ disk u = fs.
Proof.
  split; [vm_compute; reflexivity|]. split; [apply forParts_exhausted|].
  apply receive_whole_body. vm_compute. discriminate.
Qed.

(** ** The claims at concrete requests *)

Lemma bodyBytes_repeat (n : Z) (tail : list Buffer) :
  (0 <= n)%Z -> bodyBytes (repeat 0%N (Z.to_nat n) :: tail) = (n + bodyBytes tail)%Z.
Proof.
  intros H. change (bodyBytes (repeat 0%N (Z.to_nat n) :: tail))
    with (Buf.len (repeat 0%N (Z.to_nat n)) + bodyBytes tail)%Z.
  unfold Buf.len. rewrite repeat_length, Z2Nat.id by exact H. reflexivity.
Qed.

Lemma upload_size_limit_witness :
  (exists u r,
     receive exampleEnv 0 (listen (js "XYZ") ∅)
       (stream [repeat 0 (Z.to_nat MAX_UPLOAD_BYTES)]) = Normal u
     /\ chunks u = [repeat 0 (Z.to_nat MAX_UPLOAD_BYTES)] /\ destroyed u = false
     /\ sent u = [r] /\ statusCode r <> 413%Z)
  /\ (exists pre chunk post,
        [repeat 0 (Z.to_nat MAX_UPLOAD_BYTES); [0]] = pre ++ chunk :: post
        /\ (bodyBytes pre <= MAX_UPLOAD_BYTES < bodyBytes pre + Buf.len chunk)%Z
        /\ receive exampleEnv 0 (listen (js "XYZ") ∅) (List.map Data pre)
           = Normal (buffered (listen (js "XYZ") ∅) pre)
        /\ receive exampleEnv 0 (listen (js "XYZ") ∅)
             (stream [repeat 0 (Z.to_nat MAX_UPLOAD_BYTES); [0]])
           = Normal {| boundary := js "XYZ";
                       totalBytes := bodyBytes pre + Buf.len chunk;
                       chunks := pre; destroyed := true;
                       sent := [tooLarge]; disk := ∅ |}).
Proof.
  split.
  - apply (upload_size_limit exampleEnv 0 (js "XYZ") ∅ [repeat 0 (Z.to_nat MAX_UPLOAD_BYTES)]).
    rewrite bodyBytes_repeat by discriminate. apply Z.add_0_r.
  - apply (upload_size_limit exampleEnv 0 (js "XYZ") ∅
             [repeat 0 (Z.to_nat MAX_UPLOAD_BYTES); [0]]).
    rewrite bodyBytes_repeat by discriminate. reflexivity.
Defined.

Lemma router_branches_witness :
  server exampleEnv ∅ (uploadRequest (js "XYZ"))
    = Normal (Upload (handleUpload (uploadRequest (js "XYZ"))))
  /\ server exampleEnv ∅ {| method := js "DELETE"; url := js "/a.txt"; headers := ∅ |}
     = Normal (Respond (send 405 (js "text/plain") (Text (js "Method Not Allowed"))))
  /\ server exampleEnv ∅ {| method := js "GET"; url := js "/index.html"; headers := ∅ |}
     = Respond <$> serveFile exampleEnv ∅ (js "/srv/app/public/index.html")
  /\ server exampleEnv ∅ {| method := js "HEAD"; url := js "/uploads/17-a.txt"; headers := ∅ |}
     = Respond <$> serveFile exampleEnv ∅ (js "/srv/app/uploads/17-a.txt")
  /\ server exampleEnv ∅ {| method := js "GET"; url := js "/../../etc/passwd"; headers := ∅ |}
     = Normal (Respond forbidden).
Proof.
  split; [|split; [|split; [|split]]].
  - apply (router_branches exampleEnv ∅ (uploadRequest (js "XYZ"))). split; reflexivity.
  - apply (router_branches exampleEnv ∅
             {| method := js "DELETE"; url := js "/a.txt"; headers := ∅ |}).
    + intros [H _]. discriminate H.
    + intros [H | H]; discriminate H.
  - destruct (router_branches exampleEnv ∅
                {| method := js "GET"; url := js "/index.html"; headers := ∅ |})
      as (_ & _ & H & _).
    apply (H (or_introl eq_refl) (or_intror eq_refl)).
  - destruct (router_branches exampleEnv ∅
                {| method := js "HEAD"; url := js "/uploads/17-a.txt"; headers := ∅ |})
      as (_ & _ & _ & H & _).
    apply (H (or_intror eq_refl) (js "17-a.txt") eq_refl). reflexivity.
  - destruct (router_branches exampleEnv ∅
                {| method := js "GET"; url := js "/../../etc/passwd"; headers := ∅ |})
      as (_ & _ & _ & _ & H & _).
    apply (H (or_introl eq_refl)); [discriminate | discriminate | reflexivity | reflexivity].
Defined.

(** * Further properties of the code *)

(** ** The shape of a normalised path *)

Lemma split_no_separator (c : N) (s : jsstring) :
  Forall (fun seg => c ∉ seg) (Str.split c s).
Proof.
  induction s as [|d s IH]; simpl.
  - constructor; [apply not_elem_of_nil | constructor].
  - destruct (N.eqb_spec d c) as [->|Hd].
    + constructor; [apply not_elem_of_nil | exact IH].
    + destruct (Str.split c s) as [|seg segs]; inversion IH; subst.
      * constructor; [|constructor]. intros H. apply list_elem_of_singleton in H. congruence.
      * constructor; [|assumption]. intros H. apply elem_of_cons in H as [H|H]; [congruence | contradiction].
Qed.

Lemma split_app (c : N) (a b : jsstring) :
  Str.split c (a ++ c :: b) = Str.split c a ++ Str.split c b.
Proof.
  induction a as [|d a IH]; simpl.
  - rewrite N.eqb_refl. reflexivity.
  - rewrite IH. destruct (d =? c); [reflexivity|].
    destruct (Str.split c a) as [|seg segs] eqn:E; [|reflexivity].
    exfalso. exact (split_nonempty c a E).
Qed.

Lemma split_whole (c : N) (s : jsstring) : c ∉ s -> Str.split c s = [s].
Proof.
  induction s as [|d s IH]; intros H; [reflexivity|]. simpl.
  apply not_elem_of_cons in H as [Hd Hs].
  destruct (N.eqb_spec d c) as [->|_]; [congruence|].
  rewrite (IH Hs). reflexivity.
Qed.

Lemma join_cons (seg : jsstring) (segs : list jsstring) :
  segs <> [] ->
  Str.join Path.sep (seg :: segs) = seg ++ Path.sep ++ Str.join Path.sep segs.
Proof. destruct segs; [congruence | reflexivity]. Qed.

Lemma split_join (segs : list jsstring) :
  segs <> [] -> Forall (fun seg => 47 ∉ seg) segs ->
  Str.split 47 (Str.join Path.sep segs) = segs.
Proof.
  induction segs as [|seg segs IH]; [congruence|]. intros _ H.
  inversion H as [|? ? Hseg Hsegs]; subst.
  destruct segs as [|seg' segs].
  - simpl. apply split_whole. exact Hseg.
  - rewrite join_cons by discriminate. unfold Path.sep in *.
    change (seg ++ [47] ++ ?t) with (seg ++ 47 :: t).
    rewrite split_app, split_whole by exact Hseg.
    rewrite IH by (discriminate || assumption). reflexivity.
Qed.

Lemma join_app (a b : list jsstring) :
  a <> [] -> b <> [] ->
  Str.join Path.sep (a ++ b) = Str.join Path.sep a ++ Path.sep ++ Str.join Path.sep b.
Proof.
  intros Ha Hb. induction a as [|seg a IH]; [congruence|].
  destruct a as [|seg' a].
  - simpl app. rewrite join_cons by exact Hb. reflexivity.
  - change ((seg :: seg' :: a) ++ b) with (seg :: ((seg' :: a) ++ b)).
    rewrite !join_cons by discriminate. rewrite IH by discriminate.
    rewrite <- !app_assoc. reflexivity.
Qed.

Lemma join_empty (segs : list jsstring) :
  Forall (fun seg => seg <> []) segs -> Str.join Path.sep segs = [] -> segs = [].
Proof.
  intros H E. destruct segs as [|seg segs]; [reflexivity|].
  inversion H as [|? ? Hseg _]; subst. destruct seg; [congruence|].
  destruct segs; discriminate.
Qed.

Lemma normalizeStep_kept (allow : bool) (res : list jsstring) (seg : jsstring) :
  47 ∉ seg -> Forall (keptSegment (negb allow)) res ->
  Forall (keptSegment (negb allow)) (Path.normalizeStep allow res seg).
Proof.
  intros Hs Hres. unfold Path.normalizeStep.
  destruct (str_eqb seg []) eqn:E0; simpl; [exact Hres|].
  destruct (str_eqb seg [46]) eqn:E1; simpl; [exact Hres|].
  apply str_eqb_neq in E0, E1.
  destruct (str_eqb seg [46; 46]) eqn:E2.
  - apply str_eqb_eq in E2.
    assert (allow = true -> keptSegment (negb allow) seg) as Hk.
    { intros ->. repeat split; auto; discriminate. }
    destruct res as [|top res'].
    + destruct allow; [|constructor]. constructor; [auto | constructor].
    + inversion Hres; subst. destruct (str_eqb top [46; 46]); [|assumption].
      destruct allow; [|exact Hres]. constructor; auto.
  - apply str_eqb_neq in E2. constructor; [|exact Hres]. repeat split; auto.
Qed.

Lemma normalize_fold_kept (allow : bool) (segs res : list jsstring) :
  Forall (fun seg => 47 ∉ seg) segs -> Forall (keptSegment (negb allow)) res ->
  Forall (keptSegment (negb allow)) (fold_left (Path.normalizeStep allow) segs res).
Proof.
  revert res. induction segs as [|seg segs IH]; intros res Hs Hres; [exact Hres|].
  inversion Hs; subst. simpl. apply IH; [assumption|].
  apply normalizeStep_kept; assumption.
Qed.

(** A normalised path is its kept segments joined by slashes, behind a
    slash when the path is absolute and before one when it ends in a slash;
    with no segment kept it is [/], [./] or [.]. *)
Lemma normalize_shape (c : N) (t : jsstring) :
  exists kept, Forall (keptSegment (c =? 47)) kept
    /\ Path.normalize (c :: t)
       = match kept with
         | [] => if c =? 47 then [47]
                 else if List.last (c :: t) 0 =? 47 then [46; 47] else [46]
         | _ => (if c =? 47 then [47] else [])
                ++ Str.join Path.sep kept
                ++ (if List.last (c :: t) 0 =? 47 then [47] else [])
         end.
Proof.
  set (kept := rev (fold_left (Path.normalizeStep (negb (c =? 47)))
                      (Str.split 47 (c :: t)) [])).
  assert (Forall (keptSegment (c =? 47)) kept) as Hk.
  { unfold kept. apply Forall_rev.
    rewrite <- (negb_involutive (c =? 47)) at 1.
    apply normalize_fold_kept; [apply split_no_separator | constructor]. }
  exists kept. split; [exact Hk|].
  unfold Path.normalize, Path.normalizeString. fold kept.
  destruct (Str.join Path.sep kept) as [|x j] eqn:Ej.
  - apply join_empty in Ej as ->; [reflexivity|].
    eapply Forall_impl; [exact Hk|]. intros seg H. apply H.
  - destruct kept as [|seg kept']; [discriminate|].
    destruct (c =? 47), (List.last (c :: t) 0 =? 47); simpl;
      rewrite ?app_nil_r; reflexivity.
Qed.

Lemma join_two (base relative : jsstring) :
  base <> [] ->
  Path.join [base; relative]
  = Path.normalize (match relative with
                    | [] => base
                    | _ => base ++ Path.sep ++ relative
                    end).
Proof.
  intros Hb. unfold Path.join. simpl.
  assert (str_eqb base [] = false) as -> by (apply str_eqb_neq; exact Hb).
  destruct relative as [|x r]; [reflexivity|].
  assert (str_eqb (x :: r) [] = false) as -> by (apply str_eqb_neq; discriminate).
  reflexivity.
Qed.

(** The segments of a normalised absolute path with at least one segment
    kept: an empty one for the leading slash, the kept ones, an empty one
    for a trailing slash. *)
Lemma split_kept (kept : list jsstring) (trailing : bool) :
  kept <> [] -> Forall (keptSegment true) kept ->
  Str.split 47 ([47] ++ Str.join Path.sep kept ++ (if trailing then [47] else []))
  = [[]] ++ kept ++ (if trailing then [[]] else []).
Proof.
  intros Hne Hk.
  assert (Forall (fun seg => 47 ∉ seg) kept) as Hs
    by (eapply Forall_impl; [exact Hk | intros seg H; apply H]).
  change ([47] ++ ?x) with ([] ++ 47 :: x). rewrite split_app. f_equal.
  destruct trailing.
  - change (Str.join Path.sep kept ++ [47]) with (Str.join Path.sep kept ++ 47 :: []).
    rewrite split_app, split_join by assumption. reflexivity.
  - rewrite !app_nil_r. apply split_join; assumption.
Qed.

Lemma safeJoin_value (baseDir urlPath absPath : jsstring) :
  safeJoin baseDir urlPath = Normal (Some absPath) ->
  exists decoded,
    Uri.decodeURIComponent (Str.first (Str.split 63 urlPath)) = Normal decoded
    /\ absPath = Path.join [baseDir;
                            Str.stripLeadingSlashes (Str.first (Str.split 35 decoded))].
Proof.
  unfold safeJoin.
  destruct (Uri.decodeURIComponent _) as [decoded|e]; simpl; [|discriminate].
  destruct (Str.startsWith _ _); simpl; [|discriminate].
  intros [= <-]. exists decoded. split; reflexivity.
Qed.

(** X1: under an absolute root, a path [safeJoin] returns is the root, a
    separator and a rest, and none of its segments is [..] or [.]: it names
    a descendant of the root, not only a string that starts like one. *)
Theorem safeJoin_descendant (root url absPath : jsstring) :
  Str.startsWith root Path.sep = true ->
  safeJoin root url = Normal (Some absPath) ->
  (exists rest, absPath = root ++ Path.sep ++ rest)
  /\ Forall (fun seg => seg <> [46; 46] /\ seg <> [46]) (Str.split 47 absPath).
Proof.
  intros Habs H. pose proof (safeJoin_contained _ _ _ H) as [rest Hrest].
  split; [exists rest; exact Hrest|].
  apply startsWith_app in Habs as [b ->]. change (Path.sep ++ b) with (47 :: b) in *.
  apply safeJoin_value in H as (decoded & _ & H).
  rewrite join_two in H by discriminate.
  set (relative := Str.stripLeadingSlashes (Str.first (Str.split 35 decoded))) in H.
  assert (exists t, absPath = Path.normalize (47 :: t)) as [t Ht]
    by (destruct relative; eexists; exact H).
  destruct (normalize_shape 47 t) as (kept & Hk & Hn).
  rewrite <- Ht in Hn. change (47 =? 47) with true in *.
  destruct kept as [|seg kept']; cbv iota in Hn.
  - rewrite Hn in Hrest. apply (f_equal length) in Hrest.
    simpl in Hrest. rewrite length_app in Hrest. simpl in Hrest. lia.
  - rewrite Hn.
    rewrite (split_kept (seg :: kept') (List.last (47 :: t) 0 =? 47)) by (discriminate || assumption).
    apply Forall_app. split; [repeat constructor; discriminate|].
    apply Forall_app. split.
    + eapply Forall_impl; [exact Hk|]. intros s (_ & _ & H1 & H2). split; auto.
    + destruct (_ =? 47); repeat constructor; discriminate.
Qed.

Lemma safeJoin_descendant_witness :
  (exists rest, js "/srv/app/public/b/c.txt" = js "/srv/app/public" ++ Path.sep ++ rest)
  /\ Forall (fun seg => seg <> [46; 46] /\ seg <> [46])
       (Str.split 47 (js "/srv/app/public/b/c.txt")).
Proof.
  apply (safeJoin_descendant (js "/srv/app/public") (js "/a/../b/./c.txt?v=1")); reflexivity.
Defined.

Lemma split_shape (absolute trailing : bool) (kept : list jsstring) :
  kept <> [] -> Forall (fun seg => 47 ∉ seg) kept ->
  Str.split 47 ((if absolute then [47] else []) ++ Str.join Path.sep kept
                ++ (if trailing then [47] else []))
  = (if absolute then [[]] else []) ++ kept ++ (if trailing then [[]] else []).
Proof.
  intros Hne Hs.
  assert (Str.split 47 (Str.join Path.sep kept ++ (if trailing then [47] else []))
          = kept ++ (if trailing then [[]] else [])) as Ht.
  { destruct trailing.
    - change (Str.join Path.sep kept ++ [47]) with (Str.join Path.sep kept ++ 47 :: []).
      rewrite split_app, split_join by assumption. reflexivity.
    - rewrite !app_nil_r. apply split_join; assumption. }
  destruct absolute; [|exact Ht].
  change ([47] ++ ?x) with ([] ++ 47 :: x). rewrite split_app, Ht. reflexivity.
Qed.

(** A list of non-empty segments between at most one segment before and at
    most one after has no empty segment strictly inside. *)
Lemma no_interior_empty (A kept B l1 l2 : list jsstring) :
  A ++ kept ++ B = l1 ++ [] :: l2 ->
  (length A <= 1)%nat -> (length B <= 1)%nat ->
  Forall (fun seg => seg <> []) kept -> l1 <> [] -> l2 <> [] -> False.
Proof.
  unfold jsstring in *. intros E HA HB Hk H1 H2.
  assert (0 < length l1)%nat as L1 by (destruct l1; [congruence | simpl; lia]).
  assert (0 < length l2)%nat as L2 by (destruct l2; [congruence | simpl; lia]).
  pose proof (f_equal length E) as El. rewrite !length_app in El. simpl in El.
  pose proof (list_lookup_middle l1 l2 (@nil N) (length l1) eq_refl) as Hm.
  rewrite <- E in Hm.
  rewrite lookup_app_r in Hm by lia.
  destruct (decide (length l1 - length A < length kept)%nat) as [Hlt|Hge].
  - rewrite lookup_app_l in Hm by exact Hlt.
    rewrite Forall_lookup in Hk. exact (Hk _ _ Hm eq_refl).
  - lia.
Qed.

(** A normalised path has no two slashes in a row. *)
Lemma normalize_no_double_slash (p a r : jsstring) :
  Path.normalize p = a ++ 47 :: 47 :: r -> False.
Proof.
  destruct p as [|c t]; intros E.
  { apply (f_equal length) in E. rewrite length_app in E. simpl in E. lia. }
  destruct (normalize_shape c t) as (kept & Hk & Hn). rewrite E in Hn.
  destruct kept as [|seg kept'].
  - assert (length (a ++ 47%N :: 47%N :: r) <= 2)%nat as Hl
      by (rewrite Hn; destruct (c =? 47), (List.last (c :: t) 0 =? 47); simpl; lia).
    rewrite length_app in Hl. simpl in Hl.
    destruct a; [|simpl in Hl; lia]. destruct r; [|simpl in Hl; lia].
    destruct (c =? 47), (List.last (c :: t) 0 =? 47); discriminate Hn.
  - apply (f_equal (Str.split 47)) in Hn.
    rewrite split_shape in Hn;
      [|discriminate|eapply Forall_impl; [exact Hk | intros s H; apply H]].
    rewrite split_app in Hn.
    change (Str.split 47 (47 :: r)) with ([] :: Str.split 47 r) in Hn.
    symmetry in Hn. eapply (no_interior_empty _ _ _ _ _ Hn).
    + destruct (c =? 47); simpl; lia.
    + destruct (List.last (c :: t) 0 =? 47); simpl; lia.
    + eapply Forall_impl; [exact Hk | intros s H; apply H].
    + apply split_nonempty.
    + apply split_nonempty.
Qed.

(** X2: a root written with a trailing slash resolves nothing.  The joined
    path is normalised and has no two slashes in a row, so it never starts
    with the root followed by a separator: every request path is rejected
    (or throws on a malformed escape), whatever it names. *)
Theorem safeJoin_trailing_slash_root (dir url : jsstring) :
  safeJoin (dir ++ Path.sep) url
  = (_ ← Uri.decodeURIComponent (Str.first (Str.split 63 url)); mret None).
Proof.
  unfold safeJoin.
  destruct (Uri.decodeURIComponent _) as [decoded|e]; simpl; [|reflexivity].
  destruct (Str.startsWith _ _) eqn:E; [|reflexivity]. exfalso.
  apply startsWith_app in E as [rest E].
  rewrite join_two in E by (destruct dir; discriminate).
  rewrite <- !app_assoc in E.
  exact (normalize_no_double_slash _ _ _ E).
Qed.

(** ** Paths that resolve *)

Lemma kept_step (res : list jsstring) (seg : jsstring) :
  keptSegment true seg -> Path.normalizeStep false res seg = seg :: res.
Proof.
  intros (H0 & _ & H1 & H2). unfold Path.normalizeStep.
  apply str_eqb_neq in H0, H1. rewrite H0, H1. simpl.
  specialize (H2 eq_refl). apply str_eqb_neq in H2. rewrite H2. reflexivity.
Qed.

Lemma kept_fold (segs res : list jsstring) :
  Forall (keptSegment true) segs ->
  fold_left (Path.normalizeStep false) segs res = rev segs ++ res.
Proof.
  revert res. induction segs as [|seg segs IH]; intros res H; [reflexivity|].
  inversion H; subst. simpl. rewrite kept_step by assumption.
  rewrite IH by assumption. rewrite <- app_assoc. reflexivity.
Qed.

Lemma join_last (segs : list jsstring) :
  segs <> [] -> Forall (keptSegment true) segs ->
  exists pre x, Str.join Path.sep segs = pre ++ [x] /\ x <> 47.
Proof.
  induction segs as [|seg segs IH]; [congruence|]. intros _ H.
  inversion H as [|? ? Hseg Hsegs]; subst. destruct segs as [|seg' segs].
  - destruct Hseg as (Hne & Hs & _).
    destruct (exists_last Hne) as (pre & x & ->). exists pre, x. split; [reflexivity|].
    intros ->. apply Hs. apply elem_of_app. right. apply list_elem_of_singleton. reflexivity.
  - destruct (IH ltac:(discriminate) Hsegs) as (pre & x & E & Hx).
    exists (seg ++ Path.sep ++ pre), x. rewrite join_cons by discriminate.
    rewrite E, <- !app_assoc. split; [reflexivity | exact Hx].
Qed.

Lemma join_head (segs : list jsstring) :
  segs <> [] -> Forall (keptSegment true) segs ->
  exists x rest, Str.join Path.sep segs = x :: rest /\ x <> 47.
Proof.
  destruct segs as [|seg segs]; [congruence|]. intros _ H.
  inversion H as [|? ? (Hne & Hs & _) _]; subst.
  destruct seg as [|x seg]; [congruence|].
  assert (x <> 47) as Hx by (intros ->; apply Hs; left).
  destruct segs as [|seg' segs]; [exists x, seg; auto|].
  rewrite join_cons by discriminate. eexists x, _. split; [reflexivity | exact Hx].
Qed.

(** An absolute path made of kept segments is its own normal form. *)
Lemma normalize_kept (segs : list jsstring) :
  segs <> [] -> Forall (keptSegment true) segs ->
  Path.normalize (47 :: Str.join Path.sep segs) = 47 :: Str.join Path.sep segs.
Proof.
  intros Hne Hk.
  assert (Forall (fun seg => 47 ∉ seg) segs) as Hs
    by (eapply Forall_impl; [exact Hk | intros s H; apply H]).
  unfold Path.normalize, Path.normalizeString. change (47 =? 47) with true. simpl negb.
  pose proof (split_shape true false segs Hne Hs) as E.
  rewrite app_nil_r in E. change ([47] ++ ?x) with (47 :: x) in E. rewrite E.
  change (fold_left (Path.normalizeStep false) ([[]] ++ segs ++ []) [])
    with (fold_left (Path.normalizeStep false) (segs ++ []) []).
  rewrite app_nil_r, kept_fold, app_nil_r, rev_involutive by exact Hk.
  destruct (join_last segs Hne Hk) as (pre & x & Ej & Hx).
  assert ((List.last (47 :: Str.join Path.sep segs) 0 =? 47) = false) as ->.
  { rewrite Ej. change (47 :: pre ++ [x]) with ((47 :: pre) ++ [x]).
    rewrite last_last. apply N.eqb_neq. exact Hx. }
  destruct (Str.join Path.sep segs) eqn:Ej'; [destruct pre; discriminate|]. reflexivity.
Qed.

(** A normalised absolute path that does not end in a slash, by its
    segments. *)
Lemma normalized_root_segments (root : jsstring) :
  Str.startsWith root Path.sep = true -> Path.normalize root = root ->
  List.last root 0 <> 47 ->
  exists segs, segs <> [] /\ Forall (keptSegment true) segs
    /\ root = 47 :: Str.join Path.sep segs.
Proof.
  intros Habs Hn Hl. apply startsWith_app in Habs as [b ->].
  change (Path.sep ++ b) with (47 :: b) in *.
  destruct (normalize_shape 47 b) as (kept & Hk & E). rewrite Hn in E.
  change (47 =? 47) with true in *. apply N.eqb_neq in Hl. rewrite Hl in E.
  destruct kept as [|seg kept']; cbv iota in E.
  - rewrite E in Hl. discriminate.
  - exists (seg :: kept'). split; [discriminate|]. split; [exact Hk|].
    rewrite E at 1. rewrite app_nil_r. reflexivity.
Qed.

Lemma join_resolves (bsegs rsegs : list jsstring) :
  bsegs <> [] -> Forall (keptSegment true) bsegs ->
  rsegs <> [] -> Forall (keptSegment true) rsegs ->
  Path.join [47 :: Str.join Path.sep bsegs; Str.join Path.sep rsegs]
  = (47 :: Str.join Path.sep bsegs) ++ Path.sep ++ Str.join Path.sep rsegs.
Proof.
  intros Hb Hkb Hr Hkr.
  destruct (join_head rsegs Hr Hkr) as (x & rest & Er & _).
  rewrite join_two by discriminate. rewrite Er, <- Er.
  change ((47 :: ?a) ++ ?b) with (47 :: (a ++ b)).
  rewrite <- join_app by assumption.
  apply normalize_kept.
  - destruct bsegs; [congruence | discriminate].
  - apply Forall_app. split; assumption.
Qed.

Lemma decode_plain (p : jsstring) :
  Forall (fun c => plainUnit c = true) p -> Uri.decodeURIComponent p = Normal p.
Proof.
  induction 1 as [|c p Hc _ IH]; [reflexivity|]. simpl.
  unfold plainUnit in Hc. apply negb_true_iff, orb_false_iff in Hc as [Hc _].
  apply orb_false_iff in Hc as [Hc _]. rewrite Hc. simpl. rewrite IH. reflexivity.
Qed.

Lemma plain_not_in (c : N) (p : jsstring) :
  plainUnit c = false -> Forall (fun d => plainUnit d = true) p -> c ∉ p.
Proof.
  intros Hc Hp Hin. rewrite Forall_forall in Hp.
  specialize (Hp c Hin). congruence.
Qed.

Lemma first_split_app (c : N) (p q : jsstring) :
  c ∉ p -> Str.first (Str.split c (p ++ c :: q)) = p.
Proof.
  intros H. rewrite split_app, split_whole by exact H. reflexivity.
Qed.

Lemma first_split_whole (c : N) (p : jsstring) :
  c ∉ p -> Str.first (Str.split c p) = p.
Proof. intros H. rewrite split_whole by exact H. reflexivity. Qed.

Lemma strip_cons (x : N) (s : jsstring) :
  Str.stripLeadingSlashes (x :: s)
  = if x =? 47 then Str.stripLeadingSlashes s else x :: s.
Proof.
  destruct (N.eqb_spec x 47) as [->|Hx]; [reflexivity|].
  destruct x as [|p]; [reflexivity|].
  do 6 (try (destruct p as [p|p|]; try reflexivity)). congruence.
Qed.

Lemma strip_slashes_then (lead rest : jsstring) (x : N) :
  Forall (fun c => c = 47) lead -> x <> 47 ->
  Str.stripLeadingSlashes (lead ++ x :: rest) = x :: rest.
Proof.
  intros Hl Hx. induction Hl as [|c lead -> _ IH].
  - simpl app. rewrite strip_cons. apply N.eqb_neq in Hx. rewrite Hx. reflexivity.
  - exact IH.
Qed.

Lemma join_plain (segs : list jsstring) :
  Forall plainSegment segs ->
  Forall (fun c => plainUnit c = true) (Str.join Path.sep segs).
Proof.
  induction segs as [|seg segs IH]; intros H; [constructor|].
  inversion H as [|? ? [_ Hseg] Hsegs]; subst. destruct segs as [|seg' segs].
  - exact Hseg.
  - rewrite join_cons by discriminate. apply Forall_app. split; [exact Hseg|].
    apply Forall_app. split; [repeat constructor | apply IH; exact Hsegs].
Qed.

Lemma plain_kept (segs : list jsstring) :
  Forall plainSegment segs -> Forall (keptSegment true) segs.
Proof. intros H. eapply Forall_impl; [exact H | intros s [Hk _]; exact Hk]. Qed.

(** A request path of plain segments, behind any number of slashes and
    before an optional query, resolves to those segments under the root. *)
Lemma safeJoin_resolves (bsegs rsegs : list jsstring) (lead suffix : jsstring) :
  bsegs <> [] -> Forall (keptSegment true) bsegs ->
  rsegs <> [] -> Forall plainSegment rsegs ->
  Forall (fun c => c = 47) lead ->
  suffix = [] \/ (exists query, suffix = 63 :: query) ->
  safeJoin (47 :: Str.join Path.sep bsegs) (lead ++ Str.join Path.sep rsegs ++ suffix)
  = Normal (Some ((47 :: Str.join Path.sep bsegs) ++ Path.sep ++ Str.join Path.sep rsegs)).
Proof.
  intros Hb Hkb Hr Hpr Hlead Hsuf.
  pose proof (plain_kept _ Hpr) as Hkr.
  set (u := lead ++ Str.join Path.sep rsegs).
  assert (Forall (fun c => plainUnit c = true) u) as Hu.
  { apply Forall_app. split; [|apply join_plain; exact Hpr].
    eapply Forall_impl; [exact Hlead | intros c ->; reflexivity]. }
  assert (Str.first (Str.split 63 (lead ++ Str.join Path.sep rsegs ++ suffix)) = u) as E1.
  { rewrite app_assoc. fold u. destruct Hsuf as [-> | [query ->]].
    - rewrite app_nil_r. apply first_split_whole. apply plain_not_in; [reflexivity | exact Hu].
    - apply first_split_app. apply plain_not_in; [reflexivity | exact Hu]. }
  assert (Str.first (Str.split 35 u) = u) as E2
    by (apply first_split_whole; apply plain_not_in; [reflexivity | exact Hu]).
  destruct (join_head rsegs Hr Hkr) as (x & rest & Ej & Hx).
  assert (Str.stripLeadingSlashes u = Str.join Path.sep rsegs) as E3
    by (unfold u; rewrite Ej; apply strip_slashes_then; assumption).
  unfold safeJoin. rewrite E1, decode_plain by exact Hu.
  unfold mbind, completion_bind. cbv beta iota zeta.
  rewrite E2, E3, join_resolves by assumption.
  assert (Str.startsWith ((47 :: Str.join Path.sep bsegs) ++ Path.sep ++ Str.join Path.sep rsegs)
            ((47 :: Str.join Path.sep bsegs) ++ Path.sep) = true) as ->.
  { apply startsWith_app. exists (Str.join Path.sep rsegs). rewrite <- app_assoc. reflexivity. }
  reflexivity.
Qed.

(** X3: under a normalised absolute root that does not end in a slash, a
    request path whose segments are plain names (no escape, no [.] or
    [..], nothing empty) resolves to exactly those segments under the
    root, and a query string behind it changes nothing. *)
Theorem safeJoin_plain_path (root query : jsstring) (segments : list jsstring) :
  Str.startsWith root Path.sep = true -> Path.normalize root = root ->
  List.last root 0 <> 47 ->
  segments <> [] -> Forall plainSegment segments ->
  safeJoin root (Path.sep ++ Str.join Path.sep segments)
  = Normal (Some (root ++ Path.sep ++ Str.join Path.sep segments))
  /\ safeJoin root (Path.sep ++ Str.join Path.sep segments ++ js "?" ++ query)
     = Normal (Some (root ++ Path.sep ++ Str.join Path.sep segments)).
Proof.
  intros Habs Hn Hl Hs Hp.
  destruct (normalized_root_segments root Habs Hn Hl) as (bsegs & Hb & Hkb & ->).
  split.
  - rewrite <- (app_nil_r (Str.join Path.sep segments)) at 1.
    apply safeJoin_resolves; auto. repeat constructor.
  - apply safeJoin_resolves; auto; [repeat constructor | right; eexists; reflexivity].
Qed.

Lemma safeJoin_plain_path_witness :
  safeJoin (js "/srv/app/public") (js "/css/site.css")
  = Normal (Some (js "/srv/app/public/css/site.css"))
  /\ safeJoin (js "/srv/app/public") (js "/css/site.css?v=3#top")
     = Normal (Some (js "/srv/app/public/css/site.css")).
Proof.
  apply (safeJoin_plain_path (js "/srv/app/public") (js "v=3#top") [js "css"; js "site.css"]);
    try reflexivity; try discriminate.
  repeat constructor; try discriminate;
    (intros H; repeat (apply elem_of_cons in H as [H|H]; [discriminate H|]);
     exact (not_elem_of_nil _ H)).
Defined.

(** A directory joined to a name, under an absolute directory: an absolute
    path of kept segments the last of which is the name. *)
Lemma join_absolute_segments (dir name : jsstring) :
  Str.startsWith dir Path.sep = true -> keptSegment true name ->
  exists segs, segs <> [] /\ Forall (keptSegment true) segs
    /\ Path.join [dir; name] = 47 :: Str.join Path.sep segs.
Proof.
  intros Habs Hname. apply startsWith_app in Habs as [d ->].
  change (Path.sep ++ d) with (47 :: d).
  assert (Forall (keptSegment true) [name]) as Hn1 by (constructor; [exact Hname | constructor]).
  destruct (join_head [name] ltac:(discriminate) Hn1) as (x & rest & Ex & _).
  simpl in Ex. rewrite join_two by discriminate. rewrite Ex, <- Ex.
  change ((47 :: d) ++ Path.sep ++ name) with (47 :: (d ++ 47 :: name)).
  set (res := fold_left (Path.normalizeStep false) (Str.split 47 (47 :: d)) []).
  assert (Forall (keptSegment true) res) as Hres
    by (apply (normalize_fold_kept false); [apply split_no_separator | constructor]).
  exists (rev res ++ [name]). split; [destruct (rev res); discriminate|].
  split; [apply Forall_app; split; [apply Forall_rev; exact Hres | exact Hn1]|].
  unfold Path.normalize, Path.normalizeString. change (47 =? 47) with true. simpl negb.
  change (47 :: d ++ 47 :: name) with ((47 :: d) ++ 47 :: name).
  rewrite split_app, (split_whole 47 name) by apply Hname.
  rewrite fold_left_app. fold res. simpl fold_left.
  rewrite kept_step by exact Hname. simpl rev.
  destruct (join_last [name] ltac:(discriminate) Hn1) as (pre & y & Ey & Hy).
  simpl in Ey.
  assert ((List.last ((47 :: d) ++ 47 :: name) 0 =? 47) = false) as ->.
  { rewrite Ey.
    replace ((47 :: d) ++ 47 :: pre ++ [y]) with (((47 :: d) ++ 47 :: pre) ++ [y])
      by (rewrite <- app_assoc; reflexivity).
    rewrite last_last. apply N.eqb_neq. exact Hy. }
  destruct (Str.join Path.sep (rev res ++ [name])) eqn:Ej; [|reflexivity].
  apply join_empty in Ej; [destruct (rev res); discriminate|].
  apply Forall_app. split.
  - apply Forall_rev. eapply Forall_impl; [exact Hres | intros s H; apply H].
  - constructor; [apply Hname | constructor].
Qed.

Lemma read_only_tests (m : jsstring) :
  m = js "GET" \/ m = js "HEAD" ->
  str_eqb m (js "POST") = false
  /\ negb (str_eqb m (js "GET")) && negb (str_eqb m (js "HEAD")) = false.
Proof. intros [-> | ->]; split; reflexivity. Qed.

(** The two resolving branches of the callback, as the call of [safeJoin]
    each of them makes. *)
Lemma server_public_branch (env : environment) (fs : filesystem) (req : request) :
  method req = js "GET" \/ method req = js "HEAD" ->
  url req <> js "/" -> url req <> js "/index.html" ->
  Str.startsWith (url req) (js "/uploads/") = false ->
  server env fs req
  = (filePath ← safeJoin (PUBLIC_DIR env) (url req);
     if falsy filePath then mret (Respond forbidden)
     else Respond <$> serveFile env fs (default [] filePath)).
Proof.
  intros Hr Hu1 Hu2 Hs. destruct (read_only_tests _ Hr) as [E1 E2].
  unfold server. rewrite E1, E2, Hs. simpl andb. cbv iota.
  apply str_eqb_neq in Hu1, Hu2. rewrite Hu1, Hu2. reflexivity.
Qed.

Lemma server_uploads_branch (env : environment) (fs : filesystem) (req : request)
    (rest : jsstring) :
  method req = js "GET" \/ method req = js "HEAD" ->
  url req = js "/uploads/" ++ rest ->
  server env fs req
  = (uploadPath ← safeJoin (UPLOAD_DIR env) rest;
     if falsy uploadPath then mret (Respond forbidden)
     else Respond <$> serveFile env fs (default [] uploadPath)).
Proof.
  intros Hr Hu. destruct (read_only_tests _ Hr) as [E1 E2].
  unfold server. rewrite E1, E2, Hu. simpl andb. cbv iota.
  rewrite replace_prefix. reflexivity.
Qed.

Lemma resolved_is_served (env : environment) (fs : filesystem)
    (baseDir urlPath absPath : jsstring) :
  safeJoin baseDir urlPath = Normal (Some absPath) ->
  (resolved ← safeJoin baseDir urlPath;
   if falsy resolved then mret (Respond forbidden)
   else Respond <$> serveFile env fs (default [] resolved))
  = Respond <$> serveFile env fs absPath.
Proof. intros H. apply resolved_or_forbidden. exact H. Qed.

Lemma startsWith_before (c : N) (u q p : jsstring) :
  c ∉ p -> Str.startsWith (u ++ c :: q) p = Str.startsWith u p.
Proof.
  revert u. induction p as [|x p IH]; intros u Hc; [reflexivity|].
  apply not_elem_of_cons in Hc as [Hx Hp].
  destruct u as [|y u]; simpl.
  - apply andb_false_iff. left. apply N.eqb_neq. congruence.
  - rewrite IH by exact Hp. reflexivity.
Qed.

Lemma app_cons_differs (c : N) (u q s : jsstring) : c ∉ s -> u ++ c :: q <> s.
Proof.
  intros Hc E. apply Hc. rewrite <- E. apply elem_of_app. right. left.
Qed.

Lemma literal_free (c : N) (s : jsstring) :
  forallb (fun d => negb (d =? c)) s = true -> c ∉ s.
Proof.
  induction s as [|d s IH]; simpl; intros H; [apply not_elem_of_nil|].
  apply andb_true_iff in H as [Hd Hs]. apply not_elem_of_cons. split; [|auto].
  apply negb_true_iff, N.eqb_neq in Hd. congruence.
Qed.

(** X4: a GET or HEAD of a path of plain segments, other than the index
    and outside [/uploads/], is answered by [serveFile] on exactly that
    path under the public directory, with or without a query string: what
    the callback gives is what [serveFile] gives on that path.  The
    directory of the module is absolute, as [__dirname] is. *)
Theorem get_serves_public_path (env : environment) (fs : filesystem)
    (m query : jsstring) (hs : gmap jsstring jsstring) (segments : list jsstring) :
  Str.startsWith (dirname env) Path.sep = true ->
  m = js "GET" \/ m = js "HEAD" ->
  segments <> [] -> Forall plainSegment segments ->
  Path.sep ++ Str.join Path.sep segments <> js "/index.html" ->
  Str.startsWith (Path.sep ++ Str.join Path.sep segments) (js "/uploads/") = false ->
  server env fs {| method := m; url := Path.sep ++ Str.join Path.sep segments;
                   headers := hs |}
  = Respond <$> serveFile env fs
                       (PUBLIC_DIR env ++ Path.sep ++ Str.join Path.sep segments)
  /\ server env fs {| method := m;
                      url := Path.sep ++ Str.join Path.sep segments ++ js "?" ++ query;
                      headers := hs |}
     = Respond <$> serveFile env fs
                          (PUBLIC_DIR env ++ Path.sep ++ Str.join Path.sep segments).
Proof.
  intros Habs Hm Hs Hp Hidx Hup.
  destruct (join_absolute_segments (dirname env) (js "public") Habs) as (bsegs & Hb & Hkb & Epub).
  { repeat split; try discriminate. apply literal_free. reflexivity. }
  fold (PUBLIC_DIR env) in Epub.
  destruct (join_head segments Hs (plain_kept _ Hp)) as (x & rest & Ej & Hx).
  split.
  - rewrite server_public_branch; cbn [method url].
    + apply resolved_is_served. rewrite Epub.
      rewrite <- (app_nil_r (Str.join Path.sep segments)) at 1.
      apply (safeJoin_resolves bsegs segments Path.sep []); auto. repeat constructor.
    + exact Hm.
    + rewrite Ej. discriminate.
    + exact Hidx.
    + exact Hup.
  - rewrite server_public_branch; cbn [method url].
    + apply resolved_is_served. rewrite Epub.
      apply (safeJoin_resolves bsegs segments Path.sep (js "?" ++ query)); auto;
        [repeat constructor | right; eexists; reflexivity].
    + exact Hm.
    + rewrite Ej. discriminate.
    + rewrite (app_assoc Path.sep). apply app_cons_differs. apply literal_free. reflexivity.
    + rewrite (app_assoc Path.sep).
      change (js "?" ++ query) with (63 :: query).
      rewrite startsWith_before by (apply literal_free; reflexivity). exact Hup.
Qed.

Lemma get_serves_public_path_witness :
  server exampleEnv ∅ {| method := js "GET"; url := js "/css/site.css"; headers := ∅ |}
  = Respond <$> serveFile exampleEnv ∅ (js "/srv/app/public/css/site.css")
  /\ server exampleEnv ∅ {| method := js "GET"; url := js "/css/site.css?v=3";
                            headers := ∅ |}
     = Respond <$> serveFile exampleEnv ∅ (js "/srv/app/public/css/site.css").
Proof.
  apply (get_serves_public_path exampleEnv ∅ (js "GET") (js "v=3") ∅ [js "css"; js "site.css"]);
    try reflexivity; try discriminate; [left; reflexivity|].
  repeat constructor; try discriminate; apply literal_free; reflexivity.
Defined.

(** X5: under a normalised absolute upload directory that does not end in
    a slash, a GET or HEAD of [/uploads/] followed by plain segments is
    answered by [serveFile] on exactly those segments under the upload
    directory: what the callback gives is what [serveFile] gives on that
    path. *)
Theorem get_serves_upload_path (env : environment) (fs : filesystem)
    (m : jsstring) (hs : gmap jsstring jsstring) (segments : list jsstring) :
  Str.startsWith (UPLOAD_DIR env) Path.sep = true ->
  Path.normalize (UPLOAD_DIR env) = UPLOAD_DIR env ->
  List.last (UPLOAD_DIR env) 0 <> 47 ->
  m = js "GET" \/ m = js "HEAD" ->
  segments <> [] -> Forall plainSegment segments ->
  server env fs {| method := m; url := js "/uploads/" ++ Str.join Path.sep segments;
                   headers := hs |}
  = Respond <$> serveFile env fs
                       (UPLOAD_DIR env ++ Path.sep ++ Str.join Path.sep segments).
Proof.
  intros Habs Hn Hl Hm Hs Hp.
  destruct (normalized_root_segments _ Habs Hn Hl) as (bsegs & Hb & Hkb & Eup).
  rewrite (server_uploads_branch env fs _ (Str.join Path.sep segments))
    by (cbn [method url]; auto).
  apply resolved_is_served. rewrite Eup.
  rewrite <- (app_nil_r (Str.join Path.sep segments)) at 1.
  apply (safeJoin_resolves bsegs segments [] []); auto.
Qed.

Lemma get_serves_upload_path_witness :
  server exampleEnv ∅ {| method := js "HEAD"; url := js "/uploads/17-report.pdf";
                         headers := ∅ |}
  = Respond <$> serveFile exampleEnv ∅ (js "/srv/app/uploads/17-report.pdf").
Proof.
  apply (get_serves_upload_path exampleEnv ∅ (js "HEAD") ∅ [js "17-report.pdf"]);
    try reflexivity; try discriminate; [right; reflexivity|].
  repeat constructor; try discriminate; apply literal_free; reflexivity.
Defined.

(** ** What a request path loses *)

Lemma first_split_prefix (c : N) (a s : jsstring) :
  c ∉ a -> Str.first (Str.split c (a ++ s)) = a ++ Str.first (Str.split c s).
Proof.
  induction a as [|d a IH]; intros H; [reflexivity|].
  apply not_elem_of_cons in H as [Hd Ha]. specialize (IH Ha).
  simpl. destruct (N.eqb_spec d c) as [->|_]; [congruence|].
  destruct (Str.split c (a ++ s)) as [|seg segs] eqn:E.
  - exfalso. exact (split_nonempty _ _ E).
  - simpl in *. rewrite IH. reflexivity.
Qed.

Lemma decode_plain_app (p s : jsstring) :
  Forall (fun c => plainUnit c = true) p ->
  Uri.decodeURIComponent (p ++ s)
  = (r ← Uri.decodeURIComponent s; mret (p ++ r)).
Proof.
  induction 1 as [|c p Hc _ IH].
  - change ([] ++ s) with s. destruct (Uri.decodeURIComponent s); reflexivity.
  - simpl. unfold plainUnit in Hc. apply negb_true_iff, orb_false_iff in Hc as [Hc _].
    apply orb_false_iff in Hc as [Hc _]. rewrite Hc. simpl. rewrite IH.
    destruct (Uri.decodeURIComponent s); reflexivity.
Qed.

(** X6: the fragment is cut off after decoding, so an escaped number sign
    ends the path as well: whatever follows [%23] in a request path is
    ignored, and a file whose name holds a number sign cannot be named by
    any request. *)
Theorem escaped_hash_cuts_path (root p q decoded : jsstring) :
  Forall (fun c => plainUnit c = true) p ->
  Uri.decodeURIComponent (Str.first (Str.split 63 q)) = Normal decoded ->
  safeJoin root (p ++ js "%23" ++ q) = safeJoin root p.
Proof.
  intros Hp Hq.
  assert (63 ∉ p ++ js "%23") as H63.
  { intros H. apply elem_of_app in H as [H|H].
    - exact (plain_not_in 63 p eq_refl Hp H).
    - revert H. apply literal_free. reflexivity. }
  unfold safeJoin.
  rewrite app_assoc, first_split_prefix by exact H63.
  rewrite <- app_assoc, decode_plain_app by exact Hp.
  change (Uri.decodeURIComponent (js "%23" ++ ?s))
    with (Uri.emit (Some [35]) (Uri.decodeURIComponent s)).
  rewrite Hq. unfold Uri.emit, mbind, completion_bind, mret, completion_ret.
  cbv beta iota zeta.
  rewrite (first_split_whole 63 p) by (apply plain_not_in; [reflexivity | exact Hp]).
  rewrite decode_plain by exact Hp. cbv beta iota zeta.
  change (p ++ [35] ++ decoded) with (p ++ 35 :: decoded).
  rewrite (first_split_app 35 p decoded) by (apply plain_not_in; [reflexivity | exact Hp]).
  rewrite (first_split_whole 35 p) by (apply plain_not_in; [reflexivity | exact Hp]).
  reflexivity.
Qed.

Lemma escaped_hash_cuts_path_witness :
  safeJoin (js "/srv/app/uploads") (js "17-a%23b.txt")
  = safeJoin (js "/srv/app/uploads") (js "17-a").
Proof.
  apply (escaped_hash_cuts_path (js "/srv/app/uploads") (js "17-a") (js "b.txt") (js "b.txt"));
    [repeat constructor | reflexivity].
Defined.

(** ** A null character in a request path *)

(** A request path that decodes to kept segments behind slashes resolves
    to those segments under the root. *)
Lemma safeJoin_decoded (bsegs rsegs : list jsstring) (urlPath decoded lead : jsstring) :
  bsegs <> [] -> Forall (keptSegment true) bsegs ->
  rsegs <> [] -> Forall (keptSegment true) rsegs ->
  Forall (fun c => c = 47) lead ->
  Uri.decodeURIComponent (Str.first (Str.split 63 urlPath)) = Normal decoded ->
  Str.first (Str.split 35 decoded) = lead ++ Str.join Path.sep rsegs ->
  safeJoin (47 :: Str.join Path.sep bsegs) urlPath
  = Normal (Some ((47 :: Str.join Path.sep bsegs) ++ Path.sep ++ Str.join Path.sep rsegs)).
Proof.
  intros Hb Hkb Hr Hkr Hlead Hd Hc.
  destruct (join_head rsegs Hr Hkr) as (x & rest & Ej & Hx).
  assert (Str.stripLeadingSlashes (lead ++ Str.join Path.sep rsegs)
          = Str.join Path.sep rsegs) as E3
    by (rewrite Ej; apply strip_slashes_then; assumption).
  unfold safeJoin. rewrite Hd.
  unfold mbind, completion_bind. cbv beta iota zeta.
  rewrite Hc, E3, join_resolves by assumption.
  assert (Str.startsWith ((47 :: Str.join Path.sep bsegs) ++ Path.sep ++ Str.join Path.sep rsegs)
            ((47 :: Str.join Path.sep bsegs) ++ Path.sep) = true) as ->.
  { apply startsWith_app. exists (Str.join Path.sep rsegs). rewrite <- app_assoc. reflexivity. }
  reflexivity.
Qed.

(** What precedes the last segment of a joined path. *)
Lemma join_snoc (segs : list jsstring) :
  exists pre, (forall seg, Str.join Path.sep (segs ++ [seg]) = pre ++ seg)
    /\ (Forall plainSegment segs -> Forall (fun c => plainUnit c = true) pre).
Proof.
  destruct segs as [|s segs].
  - exists []. split; [reflexivity | constructor].
  - exists (Str.join Path.sep (s :: segs) ++ Path.sep). split.
    + intros seg. rewrite join_app by discriminate. rewrite <- app_assoc. reflexivity.
    + intros H. apply Forall_app. split; [apply join_plain; exact H | repeat constructor].
Qed.

Lemma serveFile_null_character (env : environment) (fs : filesystem) (filePath : jsstring) :
  0 ∈ filePath -> serveFile env fs filePath = Throw ERR_INVALID_ARG_VALUE.
Proof.
  intros H. unfold serveFile, readFile. rewrite bool_decide_eq_true_2 by exact H.
  reflexivity.
Qed.

(** X7: an escaped null character makes the callback throw.  A GET or HEAD
    of a path of plain segments followed by the segment [%00], outside
    [/uploads/], passes [safeJoin]: the path it returns lies under the
    public directory and ends in a null character.  [fs.readFile] throws
    on such a path before it opens anything, [serveFile] has no handler
    for that, and the exception leaves the callback: no response is
    written, not even a 404.  The directory of the module is absolute, as
    [__dirname] is. *)
Theorem null_character_request_throws (env : environment) (fs : filesystem)
    (m : jsstring) (hs : gmap jsstring jsstring) (segments : list jsstring) :
  Str.startsWith (dirname env) Path.sep = true ->
  m = js "GET" \/ m = js "HEAD" ->
  Forall plainSegment segments ->
  Str.startsWith (Path.sep ++ Str.join Path.sep (segments ++ [js "%00"])) (js "/uploads/")
  = false ->
  safeJoin (PUBLIC_DIR env) (Path.sep ++ Str.join Path.sep (segments ++ [js "%00"]))
  = Normal (Some (PUBLIC_DIR env ++ Path.sep ++ Str.join Path.sep (segments ++ [[0]])))
  /\ server env fs {| method := m;
                      url := Path.sep ++ Str.join Path.sep (segments ++ [js "%00"]);
                      headers := hs |}
     = Throw ERR_INVALID_ARG_VALUE.
Proof.
  intros Habs Hm Hp Hup.
  destruct (join_absolute_segments (dirname env) (js "public") Habs) as (bsegs & Hb & Hkb & Epub).
  { repeat split; try discriminate. apply literal_free. reflexivity. }
  fold (PUBLIC_DIR env) in Epub.
  destruct (join_snoc segments) as (pre & Hpre & Hplain). specialize (Hplain Hp).
  assert (Forall (fun c => plainUnit c = true) (Path.sep ++ pre)) as Hq
    by (apply Forall_app; split; [repeat constructor | exact Hplain]).
  assert (Forall (keptSegment true) (segments ++ [[0]])) as Hk.
  { apply Forall_app. split; [apply plain_kept; exact Hp|].
    constructor; [|constructor].
    repeat split; try discriminate. apply literal_free. reflexivity. }
  assert (safeJoin (PUBLIC_DIR env) (Path.sep ++ Str.join Path.sep (segments ++ [js "%00"]))
          = Normal (Some (PUBLIC_DIR env ++ Path.sep
                          ++ Str.join Path.sep (segments ++ [[0]])))) as Hj.
  { rewrite Epub.
    apply (safeJoin_decoded bsegs (segments ++ [[0]]) _
             (Path.sep ++ Str.join Path.sep (segments ++ [[0]])) Path.sep); auto.
    - intros E. apply app_eq_nil in E as [_ E]. discriminate.
    - repeat constructor.
    - rewrite !Hpre, (app_assoc Path.sep pre).
      rewrite first_split_whole.
      + rewrite decode_plain_app by exact Hq. rewrite (app_assoc Path.sep pre). reflexivity.
      + intros Hin. apply elem_of_app in Hin as [Hin|Hin].
        * revert Hin. apply plain_not_in; [reflexivity | exact Hq].
        * revert Hin. apply literal_free. reflexivity.
    - apply first_split_whole. rewrite Hpre, (app_assoc Path.sep pre).
      intros Hin. apply elem_of_app in Hin as [Hin|Hin].
      + revert Hin. apply plain_not_in; [reflexivity | exact Hq].
      + revert Hin. apply literal_free. reflexivity. }
  split; [exact Hj|].
  rewrite server_public_branch; cbn [method url].
  - rewrite (resolved_is_served env fs _ _ _ Hj).
    rewrite serveFile_null_character; [reflexivity|].
    rewrite Hpre, !app_assoc. apply elem_of_app. right. left.
  - exact Hm.
  - rewrite Hpre, (app_assoc Path.sep pre). apply app_cons_differs.
    apply literal_free. reflexivity.
  - rewrite Hpre, (app_assoc Path.sep pre). apply app_cons_differs.
    apply literal_free. reflexivity.
  - exact Hup.
Qed.

Lemma null_character_request_throws_witness :
  safeJoin (PUBLIC_DIR exampleEnv) (js "/css/%00")
  = Normal (Some (PUBLIC_DIR exampleEnv ++ js "/css/" ++ [0]))
  /\ server exampleEnv ∅ {| method := js "GET"; url := js "/css/%00"; headers := ∅ |}
     = Throw ERR_INVALID_ARG_VALUE.
Proof.
  apply (null_character_request_throws exampleEnv ∅ (js "GET") ∅ [js "css"]);
    try reflexivity; [left; reflexivity|].
  repeat constructor; try discriminate; apply literal_free; reflexivity.
Defined.

(** ** The content type of an upload *)

(** X9: a POST to [/upload] without a [content-type] header, or with one
    that does not hold [multipart/form-data], is answered 400
    [Invalid form encoding] by [handleUpload] before any handler is
    registered, whatever else the header holds. *)
Theorem invalid_form_encoding (env : environment) (fs : filesystem) (req : request) :
  method req = js "POST" -> url req = js "/upload" ->
  (headers req !! js "content-type" = None
   \/ exists contentType, headers req !! js "content-type" = Some contentType
        /\ Str.includes contentType (js "multipart/form-data") = false) ->
  server env fs req
  = Normal (Upload (Answered (send 400 (js "text/plain")
                                (Text (js "Invalid form encoding"))))).
Proof.
  intros Hm Hu Hh. unfold server. rewrite Hm, Hu. simpl. unfold handleUpload.
  destruct Hh as [-> | (contentType & -> & Hi)]; [reflexivity|].
  destruct contentType as [|c t]; [reflexivity|]. simpl orElse. rewrite Hi. reflexivity.
Qed.

Lemma invalid_form_encoding_witness :
  server exampleEnv ∅ {| method := js "POST"; url := js "/upload";
                         headers := {[ js "content-type" := js "application/json; boundary=XYZ" ]} |}
  = Normal (Upload (Answered (send 400 (js "text/plain")
                                (Text (js "Invalid form encoding"))))).
Proof.
  apply invalid_form_encoding; [reflexivity | reflexivity |].
  right. exists (js "application/json; boundary=XYZ"). split; reflexivity.
Defined.

(** ** The boundary *)

Lemma skip_nil (p : N -> bool) (t : jsstring) :
  skip p t = [] <-> Forall (fun x => p x = true) t.
Proof.
  induction t as [|x t IH]; simpl.
  - split; [constructor | reflexivity].
  - destruct (p x) eqn:Hx.
    + rewrite IH. split; [constructor; assumption | inversion 1; assumption].
    + split; [discriminate | inversion 1; congruence].
Qed.

Lemma span_all (p : N -> bool) (t : jsstring) :
  Forall (fun x => p x = true) t -> span p t = t.
Proof. induction 1 as [|x t Hx _ IH]; simpl; [|rewrite Hx, IH]; reflexivity. Qed.

(** The boundary expression at the start of a string: [boundary=], then
    one or more units up to the end, none of them a line terminator. *)
Lemma run_boundaryRegex (s : jsstring) m :
  Regex.run boundaryRegex s ∅ accept = Some m <->
  exists b, s = js "boundary=" ++ b /\ b <> []
    /\ Forall (fun x => Regex.dot x = true) b /\ m = {[ 1%nat := b ]}.
Proof.
  unfold boundaryRegex. rewrite run_Seq, run_Lit.
  change (length (js "boundary=")) with 9%nat.
  destruct (Str.startsWith s (js "boundary=")) eqn:Es; cycle 1.
  { split; [discriminate|]. intros (b & -> & _).
    assert (Str.startsWith (js "boundary=" ++ b) (js "boundary=") = true)
      by (apply startsWith_app; eexists; reflexivity). congruence. }
  apply startsWith_app in Es as [t ->]. rewrite drop_app_length'; [|reflexivity].
  cbv beta. rewrite run_Seq, group_plus by reflexivity.
  destruct t as [|x t].
  { split; [discriminate|]. intros (b & E & Hb & _).
    apply app_inv_head in E. congruence. }
  destruct (Regex.dot x) eqn:Hx; cycle 1.
  { split; [discriminate|]. intros (b & E & _ & Hd & _).
    apply app_inv_head in E. subst b. inversion Hd; congruence. }
  cbv beta. simpl Regex.run.
  destruct (skip Regex.dot t) eqn:Ek.
  - apply skip_nil in Ek. rewrite (span_all _ _ Ek). unfold accept. split.
    + intros [= <-]. exists (x :: t). repeat split; auto; discriminate.
    + intros (b & E & _ & _ & ->). apply app_inv_head in E. subst b. reflexivity.
  - split; [discriminate|]. intros (b & E & _ & Hd & _).
    apply app_inv_head in E. subst b. inversion Hd as [|? ? _ Ht]; subst.
    apply skip_nil in Ht. congruence.
Qed.

Lemma startsWith_long (s t p : jsstring) :
  (length p <= length s)%nat -> Str.startsWith (s ++ t) p = Str.startsWith s p.
Proof.
  revert s. induction p as [|x p IH]; intros s H; [reflexivity|].
  destruct s as [|y s]; [simpl in H; lia|]. simpl in *. rewrite IH by lia. reflexivity.
Qed.

(** The match the boundary expression finds is at the first [boundary=]
    of the header, when the header holds no line terminator behind it. *)
Lemma exec_first_boundary (pre b : jsstring) :
  b <> [] -> Forall (fun x => Regex.dot x = true) b ->
  Str.includes (pre ++ js "boundary") (js "boundary=") = false ->
  Regex.exec boundaryRegex (pre ++ js "boundary=" ++ b) = Some {[ 1%nat := b ]}.
Proof.
  intros Hb Hd. induction pre as [|x pre IH]; intros Hi.
  - simpl app.
    assert (Regex.run boundaryRegex (js "boundary=" ++ b) ∅ accept = Some {[ 1%nat := b ]}) as E
      by (apply run_boundaryRegex; exists b; auto).
    unfold accept in E. simpl. simpl in E. rewrite E. reflexivity.
  - change (Str.includes ((x :: pre) ++ js "boundary") (js "boundary="))
      with (Str.startsWith ((x :: pre) ++ js "boundary") (js "boundary=")
            || Str.includes (pre ++ js "boundary") (js "boundary=")) in Hi.
    apply orb_false_iff in Hi as [Hs Hi]. specialize (IH Hi).
    change ((x :: pre) ++ js "boundary=" ++ b) with (x :: (pre ++ js "boundary=" ++ b)).
    unfold Regex.exec; fold Regex.exec. fold accept.
    destruct (Regex.run boundaryRegex (x :: pre ++ js "boundary=" ++ b) ∅ accept) as [m|] eqn:E;
      [|exact IH].
    exfalso. apply run_boundaryRegex in E as (b' & E & _).
    assert (Str.startsWith (x :: pre ++ js "boundary=" ++ b) (js "boundary=") = true) as Hs'
      by (rewrite E; apply startsWith_app; eexists; reflexivity).
    change (x :: pre ++ js "boundary=" ++ b)
      with ((x :: pre) ++ (js "boundary" ++ [61]) ++ b) in Hs'.
    rewrite <- app_assoc, (app_assoc (x :: pre)) in Hs'.
    rewrite startsWith_long in Hs'; [congruence|].
    rewrite length_app. simpl. lia.
Qed.

Lemma header_value (v : jsstring) : orElse (Some v) [] = v.
Proof. destruct v; reflexivity. Qed.

(** X10: the boundary the handlers are registered with is never empty and
    holds no line terminator, and it is the whole rest of the content type
    behind a [boundary=]: what the header holds there, quotes and further
    parameters included, is taken as it stands. *)
Theorem registered_boundary (req : request) (bnd : jsstring) :
  handleUpload req = Listening bnd ->
  exists contentType pre,
    headers req !! js "content-type" = Some contentType
    /\ Str.includes contentType (js "multipart/form-data") = true
    /\ contentType = pre ++ js "boundary=" ++ bnd
    /\ bnd <> [] /\ Forall (fun x => Regex.dot x = true) bnd.
Proof.
  unfold handleUpload.
  destruct (headers req !! js "content-type") as [contentType|] eqn:Eh; [|discriminate].
  rewrite header_value.
  destruct (Str.includes contentType (js "multipart/form-data")) eqn:Ei; [|discriminate].
  simpl. destruct (Regex.exec boundaryRegex contentType) as [m|] eqn:Em; [|discriminate].
  intros [= <-]. apply exec_run in Em as (pre & s & -> & Hs).
  apply run_boundaryRegex in Hs as (b & -> & Hb & Hd & ->).
  exists (pre ++ js "boundary=" ++ b), pre.
  rewrite lookup_singleton_eq. simpl. repeat split; auto.
Qed.

Lemma registered_boundary_witness :
  exists contentType pre,
    headers (uploadRequest (js "XYZ")) !! js "content-type" = Some contentType
    /\ Str.includes contentType (js "multipart/form-data") = true
    /\ contentType = pre ++ js "boundary=" ++ js "XYZ"
    /\ js "XYZ" <> [] /\ Forall (fun x => Regex.dot x = true) (js "XYZ").
Proof. apply (registered_boundary (uploadRequest (js "XYZ")) (js "XYZ")). reflexivity. Defined.

(** X11: for a content type without a line terminator the boundary is
    everything behind the first [boundary=]: a parameter that follows the
    boundary in the header becomes part of it. *)
Theorem boundary_is_rest_of_header (req : request) (pre bnd : jsstring) :
  headers req !! js "content-type" = Some (pre ++ js "boundary=" ++ bnd) ->
  Str.includes (pre ++ js "boundary=" ++ bnd) (js "multipart/form-data") = true ->
  Str.includes (pre ++ js "boundary") (js "boundary=") = false ->
  bnd <> [] -> Forall (fun x => Regex.dot x = true) bnd ->
  handleUpload req = Listening bnd.
Proof.
  intros Hh Hi Hfirst Hb Hd. unfold handleUpload. cbv zeta. unfold jsstring in *.
  rewrite Hh, header_value, Hi. cbn [negb].
  rewrite exec_first_boundary by assumption.
  rewrite lookup_singleton_eq. reflexivity.
Qed.

Lemma boundary_is_rest_of_header_witness :
  handleUpload
    {| method := js "POST"; url := js "/upload";
       headers := {[ js "content-type"
                     := js "multipart/form-data; boundary=XYZ; charset=utf-8" ]} |}
  = Listening (js "XYZ; charset=utf-8").
Proof.
  apply (boundary_is_rest_of_header _ (js "multipart/form-data; ") (js "XYZ; charset=utf-8"));
    try reflexivity; [discriminate | repeat constructor].
Defined.

(** ** What the upload handlers keep *)

Lemma respond_outcome (u : upload) (r : response) :
  (sent u = []
   /\ respond u r
      = Normal {| boundary := boundary u; totalBytes := totalBytes u; chunks := chunks u;
                  destroyed := destroyed u; sent := [r]; disk := disk u |})
  \/ (sent u <> [] /\ respond u r = Throw ERR_HTTP_HEADERS_SENT).
Proof.
  unfold respond. destruct (sent u) as [|r' rs]; [left | right]; split;
    try reflexivity; discriminate.
Qed.

(** One event keeps the bound, or is the second to write a response. *)
Lemma handle_keeps_bound (env : environment) (now : N) (u : upload) (e : event) :
  (bodyBytes (chunks u) <= MAX_UPLOAD_BYTES)%Z ->
  (destroyed u = false -> totalBytes u = bodyBytes (chunks u)) ->
  (length (sent u) <= 1)%nat ->
  (exists u', handle env now u e = Normal u'
     /\ (bodyBytes (chunks u') <= MAX_UPLOAD_BYTES)%Z
     /\ (destroyed u' = false -> totalBytes u' = bodyBytes (chunks u'))
     /\ (length (sent u') <= 1)%nat)
  \/ handle env now u e = Throw ERR_HTTP_HEADERS_SENT.
Proof.
  intros Hb Ht Hs. unfold handle. destruct (destroyed u) eqn:Hd.
  - left. exists u. rewrite Hd. repeat split; auto.
  - specialize (Ht eq_refl). destruct e as [chunk| |].
    + unfold onData.
      destruct (Z.gtb_spec (totalBytes u + Buf.len chunk) MAX_UPLOAD_BYTES) as [Hgt|Hle].
      * match goal with |- context [respond ?v ?r] =>
          destruct (respond_outcome v r) as [[_ ->] | [_ ->]] end; [left | right; reflexivity].
        eexists. split; [reflexivity|]. cbn [chunks destroyed sent length].
        split; [exact Hb|]. split; [discriminate | lia].
      * left. eexists. split; [reflexivity|]. cbn [chunks destroyed sent totalBytes].
        rewrite bodyBytes_app. simpl bodyBytes. rewrite Hd.
        split; [lia|]. split; [intros _; lia | exact Hs].
    + rewrite onEnd_responds.
      destruct (respond_outcome u noFile) as [[_ ->] | [_ ->]]; [left | right; reflexivity].
      eexists. split; [reflexivity|]. cbn [chunks destroyed sent totalBytes length].
      rewrite Hd. split; [exact Hb|]. split; [auto | lia].
    + unfold onError.
      match goal with |- context [respond u ?r] =>
        destruct (respond_outcome u r) as [[_ ->] | [_ ->]] end; [left | right; reflexivity].
      eexists. split; [reflexivity|]. cbn [chunks destroyed sent totalBytes length].
      rewrite Hd. split; [exact Hb|]. split; [auto | lia].
Qed.

(** While only data arrives, either nothing has been written and the
    stream is open, or the stream is destroyed. *)
Lemma receive_data (env : environment) (now : N) (body : list Buffer) :
  forall u, (sent u = [] /\ destroyed u = false) \/ destroyed u = true ->
  exists u', receive env now u (List.map Data body) = Normal u'
    /\ ((sent u' = [] /\ destroyed u' = false) \/ destroyed u' = true).
Proof.
  induction body as [|c body IH]; intros u Hu; [exists u; auto|].
  cbn [List.map receive]. unfold handle.
  destruct Hu as [[Hs Hd] | Hd]; rewrite Hd.
  - unfold onData, respond. cbn [sent]. rewrite Hs.
    destruct (_ >? _)%Z; unfold mbind, completion_bind, mret, completion_ret;
      apply IH; cbn [sent destroyed]; auto.
  - unfold mbind, completion_bind, mret, completion_ret. apply IH. auto.
Qed.

(** X12: the chunks the handlers hold never add up to more than
    [MAX_UPLOAD_BYTES].  Whatever the request stream emits, in whatever
    order, either the handlers return, holding chunks within the limit,
    [totalBytes] the size of what is held while the stream is not
    destroyed, and at most one response written; or one of them throws
    [ERR_HTTP_HEADERS_SENT], because its [send] is the second on the same
    response.  A stream that emits its data and then one more event never
    makes a handler throw; one that ends and then fails does. *)
Theorem buffered_within_limit (env : environment) (now : N) (bnd : jsstring)
    (fs : filesystem) :
  (forall events,
     (exists u, receive env now (listen bnd fs) events = Normal u
        /\ (bodyBytes (chunks u) <= MAX_UPLOAD_BYTES)%Z
        /\ (destroyed u = false -> totalBytes u = bodyBytes (chunks u))
        /\ (length (sent u) <= 1)%nat)
     \/ receive env now (listen bnd fs) events = Throw ERR_HTTP_HEADERS_SENT)
  /\ (forall body e,
        exists u, receive env now (listen bnd fs) (List.map Data body ++ [e]) = Normal u)
  /\ receive env now (listen bnd fs) [EndOfBody; Failure] = Throw ERR_HTTP_HEADERS_SENT.
Proof.
  split; [|split].
  - intros events.
    assert (forall u, (bodyBytes (chunks u) <= MAX_UPLOAD_BYTES)%Z ->
            (destroyed u = false -> totalBytes u = bodyBytes (chunks u)) ->
            (length (sent u) <= 1)%nat ->
            (exists u', receive env now u events = Normal u'
               /\ (bodyBytes (chunks u') <= MAX_UPLOAD_BYTES)%Z
               /\ (destroyed u' = false -> totalBytes u' = bodyBytes (chunks u'))
               /\ (length (sent u') <= 1)%nat)
            \/ receive env now u events = Throw ERR_HTTP_HEADERS_SENT) as H.
    { induction events as [|e events IH]; intros u Hb Ht Hs.
      - left. exists u. repeat split; auto.
      - cbn [receive].
        destruct (handle_keeps_bound env now u e Hb Ht Hs)
          as [(u1 & -> & Hb1 & Ht1 & Hs1) | ->]; [|right; reflexivity].
        apply IH; assumption. }
    apply H; cbn [listen chunks destroyed totalBytes sent length bodyBytes fold_right];
      [discriminate | reflexivity | lia].
  - intros body e.
    assert (forall u, (sent u = [] /\ destroyed u = false) \/ destroyed u = true ->
            exists u', receive env now u [e] = Normal u') as Hlast.
    { intros u Hu. cbn [receive]. unfold handle.
      destruct Hu as [[Hs Hd] | Hd]; rewrite Hd; [|eexists; reflexivity].
      destruct e as [chunk| |].
      - unfold onData, respond. cbn [sent]. rewrite Hs.
        destruct (_ >? _)%Z; eexists; reflexivity.
      - rewrite onEnd_no_file by exact Hs. eexists. reflexivity.
      - unfold onError, respond. rewrite Hs. eexists. reflexivity. }
    assert (forall l u, receive env now u (l ++ [e])
            = (u' ← receive env now u l; receive env now u' [e])) as Happ.
    { induction l as [|x l IH]; intros u.
      - reflexivity.
      - cbn [app receive]. destruct (handle env now u x) as [u1|err]; [|reflexivity].
        apply IH. }
    destruct (receive_data env now body (listen bnd fs)) as (u1 & E1 & H1);
      [left; split; reflexivity|].
    rewrite Happ, E1. apply Hlast. exact H1.
  - cbn [receive]. unfold handle. cbn [listen destroyed].
    rewrite onEnd_no_file by reflexivity. reflexivity.
Qed.

(** ** More on [splitBuffer] *)

(** X13: with the empty separator [splitBuffer] does not return: the loop
    finds the separator at [start], adds nothing to [start] and goes
    round again, for any number of iterations. *)
Theorem splitBuffer_empty_separator_loops (fuel : nat) (buffer : Buffer) :
  splitLoop fuel buffer [] [] 0 (Buf.indexOf buffer [] 0) = None
  /\ splitBuffer buffer [] = None.
Proof.
  assert (Buf.indexOf buffer [] 0 = 0%Z) as E
    by (unfold Buf.indexOf; simpl; destruct buffer; reflexivity).
  unfold splitBuffer. rewrite E. split.
  - apply (splitLoop_empty_separator fuel buffer [] 0%nat). lia.
  - apply (splitLoop_empty_separator _ buffer [] 0%nat). lia.
Qed.

Lemma buf_startsWith_take (b v : Buffer) (n : nat) :
  Buf.startsWith (take n b) v = true -> Buf.startsWith b v = true.
Proof.
  intros H. apply buf_startsWith_app in H as [t Ht]. apply buf_startsWith_app.
  exists (t ++ drop n b). rewrite app_assoc, <- Ht. symmetry. apply take_drop.
Qed.

(** Before the first occurrence there is none. *)
Lemma find_take (b v : Buffer) (i : nat) :
  v <> [] -> Buf.find b v = Some i -> Buf.find (take i b) v = None.
Proof.
  intros Hv. revert i. induction b as [|x b IH]; intros i.
  - destruct v; [congruence | discriminate].
  - unfold Buf.find; fold Buf.find.
    destruct (Buf.startsWith (x :: b) v) eqn:Es.
    + intros [= <-]. destruct v; [congruence | reflexivity].
    + destruct (Buf.find b v) as [j|] eqn:Ef; [|discriminate].
      intros [= <-]. simpl take. unfold Buf.find; fold Buf.find.
      rewrite (IH j eq_refl).
      destruct (Buf.startsWith (x :: take j b) v) eqn:Et; [|reflexivity].
      apply (buf_startsWith_take (x :: b) v (S j)) in Et. congruence.
Qed.

Lemma splitLoop_fragments_free (fuel : nat) (buffer sep : Buffer) :
  sep <> [] ->
  forall (parts : list Buffer) (start : nat),
  (start <= length buffer)%nat -> (length buffer - start < fuel)%nat ->
  exists frags,
    splitLoop fuel buffer sep parts (Z.of_nat start)
      (Buf.indexOf buffer sep (Z.of_nat start)) = Some (parts ++ frags)
    /\ Forall (fun frag => Buf.find frag sep = None) frags
    /\ (Buf.find (drop start buffer) sep = None -> frags = [drop start buffer]).
Proof.
  intros Hsep. induction fuel as [|fuel IH]; intros parts start Hs Hf; [lia|].
  rewrite indexOf_find. simpl.
  destruct (Buf.find (drop start buffer) sep) as [i|] eqn:Ef.
  - destruct (find_some _ _ _ Hsep Ef) as (Hb & Hl & _).
    rewrite length_drop in Hl.
    destruct (Z.eqb_spec (Z.of_nat (start + i)) (-1)) as [E|_]; [lia|].
    assert (0 < length sep)%nat as Hpos by (destruct sep; [congruence | simpl; lia]).
    replace (Z.of_nat (start + i) + Buf.len sep)%Z
      with (Z.of_nat (start + i + length sep)) by (unfold Buf.len; lia).
    destruct (IH (parts ++ [Buf.slice buffer (Z.of_nat start) (Z.of_nat (start + i))])
                 (start + i + length sep)%nat ltac:(lia) ltac:(lia))
      as (frags & -> & Hfree & _).
    exists (take i (drop start buffer) :: frags).
    rewrite slice_take_drop by lia. rewrite <- app_assoc. split; [reflexivity|].
    split; [|discriminate].
    constructor; [apply find_take; assumption | exact Hfree].
  - simpl. exists [drop start buffer]. rewrite sliceFrom_drop by lia.
    split; [reflexivity|]. split; [|reflexivity].
    constructor; [exact Ef | constructor].
Qed.

(** X14: no fragment [splitBuffer] returns holds the separator, and a
    buffer without the separator comes back as its only fragment. *)
Theorem splitBuffer_fragments_free (buffer separator : Buffer) :
  separator <> [] ->
  exists parts, splitBuffer buffer separator = Some parts
    /\ Forall (fun frag => Buf.find frag separator = None) parts
    /\ (Buf.find buffer separator = None -> parts = [buffer]).
Proof.
  intros Hsep.
  destruct (splitLoop_fragments_free (S (length buffer)) buffer separator Hsep [] 0%nat
              ltac:(lia) ltac:(lia)) as (frags & H & Hfree & Hone).
  exists frags. unfold splitBuffer. split; [exact H|]. split; assumption.
Qed.

Lemma splitBuffer_fragments_free_witness :
  exists parts, splitBuffer [1; 9; 9; 9; 2] [9; 9] = Some parts
    /\ Forall (fun frag => Buf.find frag [9; 9] = None) parts
    /\ (Buf.find [1; 9; 9; 9; 2] [9; 9] = None -> parts = [[1; 9; 9; 9; 2]]).
Proof. apply (splitBuffer_fragments_free [1; 9; 9; 9; 2] [9; 9]). discriminate. Defined.

(** ** [parseMultipart] *)

Lemma splitLoop_fragmentsOf (fuel : nat) (buffer sep : Buffer) :
  sep <> [] ->
  forall (parts : list Buffer) (start : nat), (start <= length buffer)%nat ->
  splitLoop fuel buffer sep parts (Z.of_nat start)
    (Buf.indexOf buffer sep (Z.of_nat start))
  = app parts <$> fragmentsOf fuel sep (drop start buffer).
Proof.
  intros Hsep. induction fuel as [|fuel IH]; intros parts start Hs;
    rewrite indexOf_find; simpl;
    destruct (Buf.find (drop start buffer) sep) as [i|] eqn:Ef.
  - destruct (Z.eqb_spec (Z.of_nat (start + i)) (-1)) as [E|_]; [lia | reflexivity].
  - simpl. rewrite sliceFrom_drop by lia. reflexivity.
  - destruct (find_some _ _ _ Hsep Ef) as (_ & Hl & _). rewrite length_drop in Hl.
    destruct (Z.eqb_spec (Z.of_nat (start + i)) (-1)) as [E|_]; [lia|].
    replace (Z.of_nat (start + i) + Buf.len sep)%Z
      with (Z.of_nat (start + i + length sep)) by (unfold Buf.len; lia).
    rewrite IH by lia. rewrite slice_take_drop by lia.
    rewrite drop_drop. replace (start + (i + length sep))%nat with (start + i + length sep)%nat by lia.
    destruct (fragmentsOf fuel sep (drop (start + i + length sep) buffer)); simpl;
      [rewrite <- app_assoc|]; reflexivity.
  - simpl. rewrite sliceFrom_drop by lia. reflexivity.
Qed.

Lemma splitBuffer_fragmentsOf (buffer sep : Buffer) :
  sep <> [] -> splitBuffer buffer sep = fragmentsOf (S (length buffer)) sep buffer.
Proof.
  intros Hsep. unfold splitBuffer.
  rewrite (splitLoop_fragmentsOf _ buffer sep Hsep [] 0%nat) by lia.
  change (drop 0 buffer) with buffer. destruct (fragmentsOf _ sep buffer); reflexivity.
Qed.

Lemma fragmentsOf_more (sep : Buffer) (fuel fuel' : nat) (b : Buffer) frags :
  fragmentsOf fuel sep b = Some frags -> (fuel <= fuel')%nat ->
  fragmentsOf fuel' sep b = Some frags.
Proof.
  revert fuel' b frags. induction fuel as [|fuel IH]; intros fuel' b frags H Hle.
  - destruct fuel'; simpl in *; destruct (Buf.find b sep); congruence.
  - destruct fuel' as [|fuel']; [lia|]. simpl in *.
    destruct (Buf.find b sep) as [i|]; [|exact H].
    destruct (fragmentsOf fuel sep (drop (i + length sep) b)) as [r|] eqn:E; [|discriminate].
    rewrite (IH fuel' _ r E) by lia. exact H.
Qed.

Lemma buf_startsWith_long (s t p : Buffer) :
  (length p <= length s)%nat -> Buf.startsWith (s ++ t) p = Buf.startsWith s p.
Proof.
  revert s. induction p as [|x p IH]; intros s H; [reflexivity|].
  destruct s as [|y s]; [simpl in H; lia|]. simpl in *. rewrite IH by lia. reflexivity.
Qed.

(** A separator found nowhere in what precedes it, nor astride its own
    start, is first found where it stands. *)
Lemma find_after (a sep rest : Buffer) :
  sep <> [] -> Buf.find (a ++ removelast sep) sep = None ->
  Buf.find (a ++ sep ++ rest) sep = Some (length a).
Proof.
  intros Hsep. induction a as [|x a IH]; intros H.
  - simpl app.
    assert (Buf.startsWith (sep ++ rest) sep = true) as Hs
      by (apply buf_startsWith_app; eexists; reflexivity).
    destruct (sep ++ rest); simpl; rewrite Hs; reflexivity.
  - change ((x :: a) ++ removelast sep) with (x :: (a ++ removelast sep)) in H.
    unfold Buf.find in H; fold Buf.find in H.
    destruct (Buf.startsWith (x :: a ++ removelast sep) sep) eqn:Es; [discriminate|].
    destruct (Buf.find (a ++ removelast sep) sep) eqn:Ef; [discriminate|].
    specialize (IH eq_refl).
    change ((x :: a) ++ sep ++ rest) with (x :: (a ++ sep ++ rest)).
    unfold Buf.find; fold Buf.find. rewrite IH.
    assert (Buf.startsWith (x :: a ++ sep ++ rest) sep = false) as ->; [|reflexivity].
    replace (x :: a ++ sep ++ rest)
      with ((x :: a ++ removelast sep) ++ [List.last sep 0] ++ rest)
      by (rewrite (app_removelast_last 0 Hsep) at 3; simpl; rewrite <- !app_assoc; reflexivity).
    rewrite buf_startsWith_long; [exact Es|].
    pose proof (f_equal length (app_removelast_last 0 Hsep)) as Hl.
    rewrite length_app in Hl. simpl in *. rewrite length_app. lia.
Qed.

Lemma framedTail_fragments (delim : Buffer) (parts : list Buffer) :
  delim <> [] ->
  Forall (fun p => Buf.find ([13; 10] ++ p ++ [13; 10] ++ removelast delim) delim = None)
    parts ->
  Buf.find [45; 45; 13; 10] delim = None ->
  forall fuel, (length parts <= fuel)%nat ->
  fragmentsOf fuel delim (framedTail delim parts)
  = Some (List.map (fun p => [13; 10] ++ p ++ [13; 10]) parts ++ [[45; 45; 13; 10]]).
Proof.
  intros Hd Hparts Hend. induction Hparts as [|p parts Hp _ IH]; intros fuel Hf.
  - destruct fuel; unfold fragmentsOf; cbn [framedTail]; rewrite Hend; reflexivity.
  - destruct fuel as [|fuel]; [simpl in Hf; lia|].
    assert (framedTail delim (p :: parts)
            = ([13; 10] ++ p ++ [13; 10]) ++ delim ++ framedTail delim parts) as E
      by (simpl; rewrite <- !app_assoc; reflexivity).
    rewrite E. unfold fragmentsOf; fold fragmentsOf.
    rewrite find_after; [|exact Hd|rewrite <- !app_assoc; exact Hp].
    rewrite take_app_length.
    rewrite (app_assoc _ delim), drop_app_length'
      by (rewrite !length_app; simpl; lia).
    rewrite IH by (simpl in Hf; lia). reflexivity.
Qed.

(** What [parseMultipart] keeps of a chunk: all but its first two and its
    last two octets. *)
Lemma slice_trim (b : Buffer) :
  Buf.slice b 2 (Buf.len b - 2) = take (length b - 4) (drop 2 b).
Proof.
  unfold Buf.slice, Buf.clamp, Buf.len. change (2 <? 0)%Z with false. cbv iota.
  destruct (Z.ltb_spec (Z.of_nat (length b) - 2) 0) as [Hs|Hs].
  - rewrite (drop_ge b (Z.to_nat _)) by lia.
    replace (length b - 4)%nat with 0%nat by lia.
    rewrite take_nil, take_0. reflexivity.
  - rewrite !Z.min_l by lia.
    change (Z.to_nat 2) with 2%nat. f_equal. lia.
Qed.

Lemma parseMultipart_chunks (buffer : Buffer) (bnd : jsstring) chunks :
  splitBuffer buffer (delimiter bnd) = Some chunks ->
  parseMultipart buffer bnd
  = List.filter (fun part => (0 <? Buf.len part)%Z)
      (List.map (fun chunk => take (length chunk - 4) (drop 2 chunk)) chunks).
Proof.
  intros H. unfold parseMultipart. fold (delimiter bnd). rewrite H. simpl default.
  f_equal. apply List.map_ext. intros chunk. apply slice_trim.
Qed.

Lemma encode_two (a b : N) (t : jsstring) :
  Utf.encode (a :: b :: t)
  = if Utf.isHigh a then
      if Utf.isLow b then Utf.utf8 (Utf.pair a b) ++ Utf.encode t
      else Utf.utf8 65533 ++ Utf.encode (b :: t)
    else if Utf.isLow a then Utf.utf8 65533 ++ Utf.encode (b :: t)
    else Utf.utf8 a ++ Utf.encode (b :: t).
Proof. reflexivity. Qed.

Lemma encode_one (a : N) :
  Utf.encode [a]
  = if Utf.isHigh a then Utf.utf8 65533
    else if Utf.isLow a then Utf.utf8 65533 else Utf.utf8 a.
Proof.
  unfold Utf.encode. destruct (Utf.isHigh a); [reflexivity|].
  destruct (Utf.isLow a); apply app_nil_r.
Qed.

(** [Buffer.from] encodes a string piece by piece wherever the second piece
    does not start with a low surrogate. *)
Lemma encode_app (s : jsstring) (c : N) (t : jsstring) :
  Utf.isLow c = false ->
  Utf.encode (s ++ c :: t) = Utf.encode s ++ Utf.encode (c :: t).
Proof.
  intros Hc. remember (length s) as n eqn:Hn.
  revert s Hn. induction n as [n IH] using lt_wf_ind. intros s Hn.
  destruct s as [|a [|b s]].
  - reflexivity.
  - change ([a] ++ c :: t) with (a :: c :: t).
    rewrite (encode_two a c t), encode_one, Hc.
    destruct (Utf.isHigh a); [reflexivity|].
    destruct (Utf.isLow a); reflexivity.
  - change ((a :: b :: s) ++ c :: t) with (a :: b :: (s ++ c :: t)).
    assert (Utf.encode (b :: s ++ c :: t) = Utf.encode (b :: s) ++ Utf.encode (c :: t)) as Hb
      by (apply (IH (length (b :: s)) ltac:(subst n; simpl; lia) (b :: s) eq_refl)).
    assert (Utf.encode (s ++ c :: t) = Utf.encode s ++ Utf.encode (c :: t)) as Hs
      by (apply (IH (length s) ltac:(subst n; simpl; lia) s eq_refl)).
    rewrite (encode_two a b (s ++ c :: t)), (encode_two a b s), Hb, Hs.
    destruct (Utf.isHigh a).
    + destruct (Utf.isLow b); rewrite <- app_assoc; reflexivity.
    + destruct (Utf.isLow a); rewrite <- app_assoc; reflexivity.
Qed.

Lemma delimiter_nonempty (bnd : jsstring) : delimiter bnd <> [].
Proof. discriminate. Qed.

(** A form-data body is the delimiter, then each part between line breaks
    and followed by the delimiter, then two dashes and a line break. *)
Lemma formData_framed (bnd : jsstring) (parts : list Buffer) :
  formData bnd parts = framed bnd parts.
Proof.
  assert (Utf.encode (js "--" ++ bnd ++ CRLF) = delimiter bnd ++ [13; 10]) as Hopen
    by (unfold delimiter; rewrite app_assoc; apply (encode_app _ 13 [10]); reflexivity).
  assert (Utf.encode (js "--" ++ bnd ++ js "--" ++ CRLF) = delimiter bnd ++ [45; 45; 13; 10])
    as Hclose
    by (unfold delimiter; rewrite app_assoc; apply (encode_app _ 45 [45; 13; 10]); reflexivity).
  unfold formData, framed. rewrite Hopen, Hclose. clear Hopen Hclose.
  induction parts as [|p parts IH]; [reflexivity|].
  cbn [List.map List.concat framedTail]. change (Utf.encode CRLF) with [13; 10].
  rewrite <- IH. repeat rewrite <- app_assoc. reflexivity.
Qed.

Lemma framedTail_length (delim : Buffer) (parts : list Buffer) :
  (length parts <= length (framedTail delim parts))%nat.
Proof.
  induction parts as [|p parts IH]; simpl; [lia|].
  rewrite !length_app. simpl. rewrite !length_app. lia.
Qed.

Lemma find_short (b v : Buffer) :
  (length b < length v)%nat -> Buf.find b v = None.
Proof.
  intros H. destruct (Buf.find b v) as [i|] eqn:E; [|reflexivity].
  assert (v <> []) as Hv by (destruct v; [simpl in H; lia | discriminate]).
  destruct (find_some _ _ _ Hv E) as (_ & Hl & _). lia.
Qed.

Lemma framed_fragments (bnd : jsstring) (parts : list Buffer) :
  Forall (delimited (delimiter bnd)) parts ->
  Buf.find [45; 45; 13; 10] (delimiter bnd) = None ->
  splitBuffer (framed bnd parts) (delimiter bnd)
  = Some ([] :: List.map (fun p => [13; 10] ++ p ++ [13; 10]) parts ++ [[45; 45; 13; 10]]).
Proof.
  intros Hparts Hend.
  assert (Buf.find (delimiter bnd ++ framedTail (delimiter bnd) parts) (delimiter bnd)
          = Some 0%nat) as Hfind.
  { apply (find_after [] (delimiter bnd) (framedTail (delimiter bnd) parts)
             (delimiter_nonempty bnd)).
    change ([] ++ removelast (delimiter bnd)) with (removelast (delimiter bnd)).
    apply find_short.
    generalize (delimiter_nonempty bnd). generalize (delimiter bnd). intros d Hd.
    pose proof (f_equal length (app_removelast_last 0 Hd)) as Hl.
    rewrite length_app in Hl. cbn [length] in Hl. lia. }
  rewrite splitBuffer_fragmentsOf by apply delimiter_nonempty.
  unfold framed. unfold fragmentsOf; fold fragmentsOf. rewrite Hfind.
  rewrite take_0. change (0 + length (delimiter bnd))%nat with (length (delimiter bnd)).
  rewrite drop_app_length.
  rewrite (framedTail_fragments (delimiter bnd) parts (delimiter_nonempty bnd) Hparts Hend).
  - reflexivity.
  - rewrite length_app. pose proof (framedTail_length (delimiter bnd) parts). lia.
Qed.

Lemma trim_wrapped (p chunk : Buffer) :
  chunk = [13; 10] ++ p ++ [13; 10] -> take (length chunk - 4) (drop 2 chunk) = p.
Proof.
  intros ->. change (drop 2 ([13; 10] ++ p ++ [13; 10])) with (p ++ [13; 10]).
  cbn [app length]. rewrite length_app. cbn [length].
  replace (S (S (length p + 2)) - 4)%nat with (length p) by lia.
  apply take_app_length.
Qed.

Lemma trim_wrapped_all (parts : list Buffer) :
  List.map (fun chunk => take (length chunk - 4) (drop 2 chunk))
    (List.map (fun p => [13; 10] ++ p ++ [13; 10]) parts) = parts.
Proof.
  induction parts as [|p parts IH]; [reflexivity|].
  cbn [List.map]. rewrite IH, (trim_wrapped p _ eq_refl). reflexivity.
Qed.

Lemma utf8_head (cp : N) :
  exists x rest, Utf.utf8 cp = x :: rest /\ (x = 13 -> cp = 13).
Proof.
  unfold Utf.utf8.
  destruct (cp <? 128); [|destruct (cp <? 2048); [|destruct (cp <? 65536)]];
    eexists; eexists; (split; [reflexivity|]); intros E; [exact E | exfalso ..];
    revert E; [generalize (cp / 64) | generalize (cp / 4096) | generalize (cp / 262144)];
    intros n E; lia.
Qed.

Lemma encode_head (s : jsstring) :
  s <> [] -> exists x rest, Utf.encode s = x :: rest /\ (x = 13 -> List.hd 0 s = 13).
Proof.
  destruct s as [|c t]; [congruence|]. intros _.
  unfold Utf.encode; fold Utf.encode. cbn [List.hd].
  destruct (Utf.isHigh c).
  - destruct t as [|d t].
    + destruct (utf8_head 65533) as (x & rest & -> & Hx).
      exists x, rest. split; [reflexivity|]. intros E. specialize (Hx E). discriminate.
    + destruct (Utf.isLow d).
      * destruct (utf8_head (Utf.pair c d)) as (x & rest & -> & Hx).
        eexists; eexists. split; [reflexivity|]. intros E. specialize (Hx E).
        unfold Utf.pair in Hx. lia.
      * destruct (utf8_head 65533) as (x & rest & -> & Hx).
        eexists; eexists. split; [reflexivity|]. intros E. specialize (Hx E). discriminate.
  - destruct (Utf.isLow c).
    + destruct (utf8_head 65533) as (x & rest & -> & Hx).
      eexists; eexists. split; [reflexivity|]. intros E. specialize (Hx E). discriminate.
    + destruct (utf8_head c) as (x & rest & -> & Hx).
      eexists; eexists. split; [reflexivity|]. exact Hx.
Qed.

(** The two dashes and the line break that close a body hold the
    delimiter only for a boundary that is empty or starts with a carriage
    return. *)
Lemma closing_free (bnd : jsstring) :
  bnd <> [] -> List.hd 0 bnd <> 13 -> Buf.find [45; 45; 13; 10] (delimiter bnd) = None.
Proof.
  intros Hb Hc. change (delimiter bnd) with (45 :: 45 :: Utf.encode bnd).
  destruct (encode_head bnd Hb) as (x & rest & -> & Hx).
  assert (x <> 13) as Hn by (intros E; apply Hc, Hx, E).
  unfold Buf.find, Buf.startsWith.
  change (45 =? 45) with true. change (45 =? 13) with false. change (45 =? 10) with false.
  destruct (N.eqb_spec x 13) as [E|_]; [contradiction | reflexivity].
Qed.

(** X15: [parseMultipart] reads a form-data body back.  For a boundary
    that is not empty and does not start with a carriage return, and a
    body framed as RFC 7578 has it whose parts cannot be mistaken for the
    delimiter, the result is the list of the parts that are not empty, in
    their order: the empty fragment before the first delimiter, the line
    breaks around each part and the closing dashes are all dropped. *)
Theorem parseMultipart_formData (bnd : jsstring) (parts : list Buffer) :
  bnd <> [] -> List.hd 0 bnd <> 13 ->
  Forall (delimited (delimiter bnd)) parts ->
  parseMultipart (formData bnd parts) bnd
  = List.filter (fun p => (0 <? Buf.len p)%Z) parts.
Proof.
  intros Hb Hc Hparts. pose proof (closing_free bnd Hb Hc) as Hend.
  rewrite formData_framed.
  rewrite (parseMultipart_chunks _ _ _ (framed_fragments bnd parts Hparts Hend)).
  cbn [List.map]. rewrite List.map_app, trim_wrapped_all.
  cbn [List.map length Nat.sub take drop List.filter].
  change (0 <? Buf.len [])%Z with false. cbv iota.
  rewrite List.filter_app. cbn [List.filter]. change (0 <? Buf.len [])%Z with false.
  cbv iota. apply app_nil_r.
Qed.

Lemma parseMultipart_formData_witness :
  parseMultipart (formData (js "XYZ") severalParts) (js "XYZ")
  = List.filter (fun p => (0 <? Buf.len p)%Z) severalParts.
Proof.
  apply (parseMultipart_formData (js "XYZ") severalParts).
  - discriminate.
  - discriminate.
  - repeat (constructor; [vm_compute; reflexivity|]). constructor.
Defined.

(** X16: [parseMultipart] does not ask for a delimiter.  A body in which
    the delimiter does not occur is read as one part, the body without its
    first two and its last two octets, and as no part when it has four
    octets or fewer. *)
Theorem parseMultipart_without_delimiter (body : Buffer) (bnd : jsstring) :
  Buf.find body (delimiter bnd) = None ->
  parseMultipart body bnd
  = if (4 <? Buf.len body)%Z then [take (length body - 4) (drop 2 body)] else [].
Proof.
  intros H.
  assert (splitBuffer body (delimiter bnd) = Some [body]) as Hs.
  { rewrite splitBuffer_fragmentsOf by apply delimiter_nonempty.
    unfold fragmentsOf. rewrite H. reflexivity. }
  rewrite (parseMultipart_chunks _ _ _ Hs). cbn [List.map List.filter].
  unfold Buf.len. rewrite length_take, length_drop.
  destruct (Z.ltb_spec 4 (Z.of_nat (length body))) as [Hl|Hl];
    destruct (Z.ltb_spec 0 (Z.of_nat ((length body - 4) `min` (length body - 2))))
      as [Hm|Hm]; try reflexivity; lia.
Qed.

Lemma parseMultipart_without_delimiter_witness :
  parseMultipart [1; 2; 3; 4; 5; 6] (js "XYZ") = [[3; 4]].
Proof.
  exact (parseMultipart_without_delimiter [1; 2; 3; 4; 5; 6] (js "XYZ") eq_refl).
Defined.
